(** * Seeking and preamble handling of the FLAC stream session (flac.go)

    A shallow embedding of [Stream.Seek], [Stream.searchFromStart],
    [Stream.searchFromCurrent], [Stream.searchFromEnd],
    [Stream.makeSeekTable], [Stream.parseStreamInfo] and
    [Stream.skipID3v2], with the properties of the seek table and of
    the signature verifier that the design document states about them. *)

From Stdlib Require Import ZArith NArith List Bool Lia.
From Stdlib Require Import Strings.Byte.
Import ListNotations.
Local Open Scope Z_scope.

(** ** Machine integers

    Go's [int64] and [uint64] are kept as [Z] and [N]; every conversion
    and every operation that can wrap writes its wrap-around out. *)

Definition int64 (z : Z) : Z := (z + 2 ^ 63) mod 2 ^ 64 - 2 ^ 63.

Definition uint64 (z : Z) : N := Z.to_N (z mod 2 ^ 64).

(** ** Seek points (meta.SeekPoint) and seek tables (meta.SeekTable) *)

(** Modelled from the spec: the declaration of [meta.SeekPoint] is in
    the meta package, outside flac.go.  The three fields are the ones
    flac.go reads and writes, with the widths the data model gives them
    and flac.go converts them from. *)
Record SeekPoint := mkPoint {
  SampleNum : N;   (* uint64: sample number of the first sample of the frame *)
  Offset    : N;   (* uint64: byte offset relative to dataStart *)
  NSamples  : N    (* uint16: number of samples in the frame *)
}.

(** The zero value of [meta.SeekPoint], what [var p meta.SeekPoint] holds. *)
Definition zeroPoint : SeekPoint := mkPoint 0 0 0.

Definition SeekTable := list SeekPoint.

(** [int64(p.SampleNum)] and [int64(p.Offset)]: the signed readings the
    searches compare. *)
Definition sampleKey (p : SeekPoint) : Z := int64 (Z.of_N (SampleNum p)).
Definition offsetKey (p : SeekPoint) : Z := int64 (Z.of_N (Offset p)).

(** ** Stream.searchFromStart (flac.go 376-389)

    The [for i, p = range points] loop assigns the named result [p] at
    each iteration; [last] trails it by one iteration. *)

Fixpoint searchFromStart_loop (sample : Z) (points : list SeekPoint)
         (i : nat) (last p : SeekPoint) : SeekPoint :=
  match points with
  | [] => p
  | q :: rest =>
      if sample <=? sampleKey q
      then (if Nat.eqb i 0 then q else last)
      else searchFromStart_loop sample rest (S i) q q
  end.

Definition searchFromStart (points : SeekTable) (sample : Z) : SeekPoint :=
  searchFromStart_loop sample points 0 zeroPoint zeroPoint.

(** A table is sorted when the signed sample keys never decrease. *)
Definition sortedBySample (points : SeekTable) : Prop :=
  forall i j p q, (i <= j)%nat ->
    nth_error points i = Some p -> nth_error points j = Some q ->
    sampleKey p <= sampleKey q.

Definition placeholderPoint : SeekPoint := mkPoint (2 ^ 64 - 1) 0 0.

(** Tables used in the examples: three frames of 4096 samples, and an
    embedded table that ends in a placeholder point (sample number
    0xFFFFFFFFFFFFFFFF, as the format reserves for it). *)
Definition table3 : SeekTable :=
  [mkPoint 0 0 4096; mkPoint 4096 1000 4096; mkPoint 8192 2000 4096].

Definition tablePlaceholder : SeekTable :=
  [mkPoint 0 0 100; mkPoint 100 400 100; placeholderPoint].

(** ** Errors, panics and results

    Go functions here either return (possibly with a non-nil [error]),
    or panic.  The frame scan of [makeSeekTable] is an unbounded [for]
    loop, so the embedding carries fuel and [OutOfFuel] marks a scan
    that has not finished within it. *)

Inductive error :=
| EOF                  (* io.EOF *)
| ErrUnexpectedEOF     (* io.ErrUnexpectedEOF *)
| ErrInvalidSeek       (* "stream.Seek: out of stream seek" *)
| ErrNoSeeker          (* "stream.Seek: not a Seeker" *)
| ErrInvalidSignature (got : list byte)
                       (* "invalid FLAC signature; expected ..., got ..." *)
| ErrFirstBlockType    (* "incorrect type of first metadata block" *)
| ErrNoProgress        (* io.ErrNoProgress *)
| ErrOther (code : nat).
                       (* any error of the source, or of the frame and
                          meta packages *)

Inductive panic :=
| TypeAssertion        (* interface conversion: not an io.ReadSeeker *)
| NilDereference       (* invalid memory address or nil pointer dereference *)
| DivideByZero         (* integer divide by zero *)
| MakeSliceCap.        (* makeslice: cap out of range *)

Inductive result (A : Type) :=
| Returns (a : A)
| Panics (p : panic)
| OutOfFuel.
Arguments Returns {A} a.
Arguments Panics {A} p.
Arguments OutOfFuel {A}.

Definition bind {A B : Type} (c : result A) (k : A -> result B) : result B :=
  match c with
  | Returns a => k a
  | Panics p => Panics p
  | OutOfFuel => OutOfFuel
  end.

Declare Scope go_scope.
Delimit Scope go_scope with go.
Notation "x <- c ;; k" := (bind c (fun x => k))
  (at level 61, c at next level, right associativity) : go_scope.
Notation "' pat <- c ;; k" := (bind c (fun x => match x with pat => k end))
  (at level 61, pat pattern, c at next level, right associativity) : go_scope.

Definition error_eqb_EOF (e : error) : bool :=
  match e with EOF => true | _ => false end.

(** ** The io package: whence values of Seek *)

Module io.
Definition SeekStart : Z := 0.
Definition SeekCurrent : Z := 1.
Definition SeekEnd : Z := 2.
End io.

(** ** Collaborators: the underlying source and the frame decoder

    [R] is the state of the object behind [stream.r].  [rsSeek] is its
    [Seek(offset, whence)] method; [frameParse] is [frame.Parse] reading
    the next frame from it, of which only the block size is used. *)

Record Frame := mkFrame { BlockSize : N (* uint16 *) }.
(* frame.Frame is declared in the frame package; flac.go reads this
   field only. *)

Class Source (R : Type) := {
  rsSeek : R -> Z -> Z -> R * (Z + error);
  frameParse : R -> R * (Frame + error)
}.

(** The dynamic type behind [stream.r]: [New] and [Parse] install a
    [*bufio.Reader], which has no [Seek] method; [NewSeek] installs the
    caller's [io.ReadSeeker]. *)
Inductive Reader (R : Type) :=
| Sequential (br : R)
| Seekable (rs : R).
Arguments Sequential {R} br.
Arguments Seekable {R} rs.

Module StreamInfo.
(** [meta.StreamInfo], of which seeking reads [NSamples] only. *)
Record t := mk { NSamples : N (* uint64 *) }.
End StreamInfo.

(** ** The session (type Stream, flac.go 45-65) *)

Record Stream (R : Type) := mkStream {
  Info : option StreamInfo.t;       (* *meta.StreamInfo *)
  seekTable : option SeekTable;     (* *meta.SeekTable; nil if uninitialized *)
  seekTableSize : Z;                (* int *)
  dataStart : Z;                    (* int64 *)
  r : Reader R                      (* io.Reader *)
}.
Arguments mkStream {R} _ _ _ _ _.
Arguments Info {R} _.
Arguments seekTable {R} _.
Arguments seekTableSize {R} _.
Arguments dataStart {R} _.
Arguments r {R} _.

Definition defaultSeekTableSize : Z := 100.

Definition set_r {R : Type} (stream : Stream R) (rs : R) : Stream R :=
  mkStream (Info stream) (seekTable stream) (seekTableSize stream)
           (dataStart stream) (Seekable rs).

Definition set_seekTable {R : Type} (stream : Stream R) (points : SeekTable)
  : Stream R :=
  mkStream (Info stream) (Some points) (seekTableSize stream)
           (dataStart stream) (r stream).

(** [stream.seekTable.Points] and [stream.Info.NSamples]: a nil pointer
    panics. *)
Definition Points {R : Type} (stream : Stream R) : result SeekTable :=
  match seekTable stream with
  | Some points => Returns points
  | None => Panics NilDereference
  end.

Definition InfoNSamples {R : Type} (stream : Stream R) : result N :=
  match Info stream with
  | Some si => Returns (StreamInfo.NSamples si)
  | None => Panics NilDereference
  end.

(** ** Stream.searchFromEnd (flac.go 372-374) *)

Definition searchFromEnd (points : SeekTable) (nsamples : N) (sample : Z)
  : SeekPoint :=
  searchFromStart points (int64 (int64 (Z.of_N nsamples) + sample)).

(** ** Stream.searchFromCurrent (flac.go 355-368)

    [searchFromCurrent_loop] is the [range] loop over the table, started
    with the named result [p]; [offset] is [o - stream.dataStart]. *)

Fixpoint searchFromCurrent_loop (all points : list SeekPoint)
         (offset sample : Z) (p : SeekPoint) : SeekPoint :=
  match points with
  | [] => p
  | q :: rest =>
      if offset <=? offsetKey q
      then searchFromStart all (int64 (sampleKey q + sample))
      else searchFromCurrent_loop all rest offset sample q
  end.

Section Session.
Context {R : Type} `{Source R}.

Definition searchFromCurrent (stream : Stream R) (sample : Z) (rs : R)
  : result (R * (SeekPoint * option error)) :=
  match rsSeek rs 0 io.SeekCurrent with
  | (rs1, inr err) => Returns (rs1, (zeroPoint, Some err))
  | (rs1, inl o) =>
      let offset := int64 (o - dataStart stream) in
      (points <- Points stream ;;
       Returns (rs1, (searchFromCurrent_loop points points offset sample
                                             zeroPoint, None)))%go
  end.

(** ** Stream.makeSeekTable (flac.go 391-451) *)

(** The frame scan, lines 410-433.  [inl tmp] is the [break] on
    [io.EOF]; [inr err] is a [return err] from inside the loop. *)
Fixpoint scanFrames (fuel : nat) (start : Z) (rs : R) (sampleNum : N)
         (tmp : list SeekPoint) : option (R * (list SeekPoint + error)) :=
  match fuel with
  | O => None
  | S fuel' =>
      match frameParse rs with
      | (rs1, inr err) =>
          if error_eqb_EOF err then Some (rs1, inl tmp)
          else Some (rs1, inr err)
      | (rs1, inl f) =>
          match rsSeek rs1 0 io.SeekCurrent with
          | (rs2, inr err) => Some (rs2, inr err)
          | (rs2, inl o) =>
              scanFrames fuel' start rs2
                (uint64 (Z.of_N sampleNum + Z.of_N (BlockSize f)))
                (tmp ++ [mkPoint sampleNum (uint64 (int64 (o - start)))
                                 (BlockSize f)])
          end
      end
  end.

(** The selection loop, lines 441-445: [i%m] panics when [m] is 0. *)
Fixpoint keepMultiples (m : Z) (i : Z) (tmp : list SeekPoint)
  : result (list SeekPoint) :=
  match tmp with
  | [] => Returns []
  | p :: rest =>
      if m =? 0 then Panics DivideByZero
      else (points <- keepMultiples m (i + 1) rest ;;
            Returns (if Z.rem i m =? 0 then p :: points else points))%go
  end.

(** Lines 435-445: the stride, the allocation and the selection. *)
Definition reducePoints (tmp : list SeekPoint) (size : Z)
  : result (list SeekPoint) :=
  let n := Z.of_nat (length tmp) in
  (m <- (if size <? n
         then (if size =? 0 then Panics DivideByZero
               else Returns (Z.quot n size))
         else Returns 1) ;;
   if int64 (size + 1) <? 0 then Panics MakeSliceCap
   else keepMultiples m 0 tmp)%go.

Definition makeSeekTable (fuel : nat) (stream : Stream R)
  : result (Stream R * option error) :=
  match r stream with
  | Sequential _ => Returns (stream, Some ErrNoSeeker)
  | Seekable rs =>
      match rsSeek rs 0 io.SeekCurrent with
      | (rs1, inr err) => Returns (set_r stream rs1, Some err)
      | (rs1, inl pos) =>
          match rsSeek rs1 (dataStart stream) io.SeekStart with
          | (rs2, inr err) => Returns (set_r stream rs2, Some err)
          | (rs2, inl _) =>
              match scanFrames fuel (dataStart stream) rs2 0 [] with
              | None => OutOfFuel
              | Some (rs3, inr err) => Returns (set_r stream rs3, Some err)
              | Some (rs3, inl tmp) =>
                  (points <- reducePoints tmp (seekTableSize stream) ;;
                   let stream' := set_seekTable (set_r stream rs3) points in
                   match rsSeek rs3 pos io.SeekStart with
                   | (rs4, inr err) => Returns (set_r stream' rs4, Some err)
                   | (rs4, inl _) => Returns (set_r stream' rs4, None)
                   end)%go
              end
          end
      end
  end.

(** ** Stream.Seek (flac.go 326-353) *)

Definition isNil {A : Type} (o : option A) : bool :=
  match o with None => true | Some _ => false end.

(** The [switch] on [whence], lines 336-345: [inl] is the point found
    together with [err]; [inr] is the [default] case, which returns at
    once. *)
Definition seekSwitch (stream : Stream R) (sampleNum whence : Z) (rs : R)
  : result (R * (SeekPoint * option error) + error) :=
  (if whence =? io.SeekStart then
     points <- Points stream ;;
     Returns (inl (rs, (searchFromStart points sampleNum, None)))
   else if whence =? io.SeekCurrent then
     found <- searchFromCurrent stream sampleNum rs ;;
     Returns (inl found)
   else if whence =? io.SeekEnd then
     nsamples <- InfoNSamples stream ;;
     points <- Points stream ;;
     Returns (inl (rs, (searchFromEnd points nsamples sampleNum, None)))
   else Returns (inr ErrInvalidSeek))%go.

Definition Seek (fuel : nat) (stream : Stream R) (sampleNum whence : Z)
  : result (Stream R * (Z * option error)) :=
  ('(stream1, built) <-
     (if isNil (seekTable stream) && (0 <? seekTableSize stream)
      then makeSeekTable fuel stream
      else Returns (stream, None)) ;;
   match built with
   | Some err => Returns (stream1, (0, Some err))
   | None =>
       match r stream1 with
       | Sequential _ => Panics TypeAssertion
       | Seekable rs =>
           sw <- seekSwitch stream1 sampleNum whence rs ;;
           match sw with
           | inr err => Returns (stream1, (0, Some err))
           | inl (rs1, (_, Some err)) =>
               Returns (set_r stream1 rs1, (0, Some err))
           | inl (rs1, (point, None)) =>
               match rsSeek rs1 (int64 (dataStart stream1 + offsetKey point))
                            io.SeekStart with
               | (rs2, inr err) =>
                   Returns (set_r stream1 rs2, (sampleKey point, Some err))
               | (rs2, inl _) =>
                   Returns (set_r stream1 rs2, (sampleKey point, None))
               end
           end
       end
   end)%go.

End Session.

(** ** An in-memory source

    A concrete [Source] used to run the session on examples: a file
    whose audio frames start at byte [base], each with a byte length, a
    block size and a flag telling whether it decodes; a read position;
    and the number of [Seek] calls the device still serves before it
    reports an I/O error. *)

Module MemFile.

Record FrameSpec := mkFrameSpec {
  nbytes : Z;
  blockSize : N;
  decodes : bool
}.

Record t := mk {
  base : Z;
  frames : list FrameSpec;
  pos : Z;
  seeksLeft : nat
}.

Definition size (f : t) : Z :=
  fold_left (fun acc fr => acc + nbytes fr) (frames f) (base f).

Definition ioError : error := ErrOther 5.
Definition badFrame : error := ErrOther 1.
Definition lostSync : error := ErrOther 2.
Definition negativePosition : error := ErrOther 22.

(** [Seek]: an absolute, relative or end-relative reposition; it fails
    once the device is exhausted, or on a negative target, and then
    leaves the position where it was. *)
Definition seek (f : t) (offset whence : Z) : t * (Z + error) :=
  match seeksLeft f with
  | O => (f, inr ioError)
  | S n =>
      let target :=
        if whence =? io.SeekStart then offset
        else if whence =? io.SeekCurrent then pos f + offset
        else size f + offset in
      if target <? 0
      then (mk (base f) (frames f) (pos f) n, inr negativePosition)
      else (mk (base f) (frames f) target n, inl target)
  end.

(** The frame that starts at [p], searched from [start] on: past the
    last frame the stream has ended; a frame that does not decode is
    read to its end before the decoder gives up; a position inside a
    frame finds no frame header. *)
Fixpoint parseAt (start : Z) (frs : list FrameSpec) (p : Z)
  : Z * (Frame + error) :=
  match frs with
  | [] => (p, inr EOF)
  | fr :: rest =>
      if p =? start then
        (start + nbytes fr,
         if decodes fr then inl (mkFrame (blockSize fr)) else inr badFrame)
      else if p <? start + nbytes fr then (p, inr lostSync)
      else parseAt (start + nbytes fr) rest p
  end.

Definition parse (f : t) : t * (Frame + error) :=
  let '(p, res) := parseAt (base f) (frames f) (pos f) in
  (mk (base f) (frames f) p (seeksLeft f), res).

End MemFile.

#[export] Instance MemFile_Source : Source MemFile.t :=
  {| rsSeek := MemFile.seek; frameParse := MemFile.parse |}.

(** Example files: metadata ends at byte 42. *)
Definition goodFrame (n : Z) : MemFile.FrameSpec :=
  MemFile.mkFrameSpec n 4096 true.

Definition corruptFrame (n : Z) : MemFile.FrameSpec :=
  MemFile.mkFrameSpec n 4096 false.

Definition fileOf (frames : list MemFile.FrameSpec) (pos : Z) (seeks : nat)
  : MemFile.t :=
  MemFile.mk 42 frames pos seeks.

(** A session as [NewSeek] leaves it: the default table size, no table
    unless the metadata held one, [dataStart] just past the metadata. *)
Definition sessionOfNewSeek (file : MemFile.t) (table : option SeekTable)
  : Stream MemFile.t :=
  mkStream (Some (StreamInfo.mk 12288)) table defaultSeekTableSize
           (MemFile.base file) (Seekable file).

(** A session as [New] and [Parse] leave it: a buffered reader, no
    table, and the zero values of [seekTableSize] and [dataStart]. *)
Definition sessionOfNew {R : Type} (info : StreamInfo.t) (br : R) : Stream R :=
  mkStream (Some info) None 0 0 (Sequential br).

(** The error of a source call, as the [err] Go returns beside the value. *)
Definition errOf {A : Type} (res : A + error) : option error :=
  match res with inl _ => None | inr err => Some err end.

Definition frames3 : list MemFile.FrameSpec :=
  [goodFrame 1000; goodFrame 1000; goodFrame 1000].

Definition framesCorrupt : list MemFile.FrameSpec :=
  [goodFrame 10; corruptFrame 20; goodFrame 10].

Definition frames2 : list MemFile.FrameSpec := [goodFrame 10; goodFrame 20].

(** The table of a session, and the position of its in-memory source. *)
Definition tableOf {R : Type} (res : result (Stream R * option error))
  : option SeekTable :=
  match res with
  | Returns (stream, _) => seekTable stream
  | _ => None
  end.

Definition positionOf (stream : Stream MemFile.t) : Z :=
  match r stream with
  | Sequential f => MemFile.pos f
  | Seekable f => MemFile.pos f
  end.

(** A long stream: 199 frames of 10 bytes. *)
Definition frames199 : list MemFile.FrameSpec := repeat (goodFrame 10) 199.

Definition frames5 : list MemFile.FrameSpec := repeat (goodFrame 10) 5.

(** [n] raw seek points, as a scan of [n] equal frames collects them. *)
Definition rawPoints (n : nat) : list SeekPoint :=
  map (fun i => mkPoint (4096 * N.of_nat i) (10 * (N.of_nat i + 1)) 4096)
      (seq 0 n).

(** * The signature verifier *)

(** ** Byte slices *)

Definition byteZ (b : byte) : Z := Z.of_N (Byte.to_N b).

Module bytes.
(** [bytes.Equal]. *)
Fixpoint Equal (a b : list byte) : bool :=
  match a, b with
  | [], [] => true
  | x :: a', y :: b' => Byte.eqb x y && Equal a' b'
  | _, _ => false
  end.
End bytes.

(** ["fLaC"] and ["ID3"] (flac.go 137, 140). *)
Definition flacSignature : list byte := [x66; x4c; x61; x43].
Definition id3Signature : list byte := [x49; x44; x33].

(** ** Readers

    The data behind [stream.r] is an in-memory byte source, given by
    its unread bytes, whose [Read] hands over as many bytes as are asked
    for while it has them and reports [io.EOF] once it has none, as
    [*bytes.Reader] does.  [bufio.Reader] is the buffered reader of the
    standard library over such a source: [buf] holds the bytes read
    ahead and not yet consumed, [rd] the state of the source under it.
    Over this source the reader's pending error is always cleared by
    the call that met it, so it is not part of the state. *)

Module bufio.

Definition defaultBufSize : nat := 4096.

Record Reader := mkReader {
  buf : list byte;
  rd : list byte
}.

(** [NewReader] over a source that is not itself a buffered reader. *)
Definition NewReader (src : list byte) : Reader := mkReader [] src.

Definition Buffered (b : Reader) : nat := length (buf b).

(** [fill]: one read into the free part of the buffer. *)
Definition fill (b : Reader) : Reader * option error :=
  match rd b with
  | [] => (b, Some EOF)
  | _ :: _ =>
      let room := (defaultBufSize - Buffered b)%nat in
      (mkReader (buf b ++ firstn room (rd b)) (skipn room (rd b)), None)
  end.

(** [Read(p)] with [len(p) = n > 0]: an empty buffer is refilled by one
    read of the source (a read of a buffer's size or more goes straight
    to the source), then as much as is buffered is copied out. *)
Definition Read (b : Reader) (n : nat) : Reader * (list byte * option error) :=
  match buf b with
  | [] =>
      match rd b with
      | [] => (b, ([], Some EOF))
      | _ :: _ =>
          if (defaultBufSize <=? n)%nat
          then (mkReader [] (skipn n (rd b)), (firstn n (rd b), None))
          else
            let filled := firstn defaultBufSize (rd b) in
            (mkReader (skipn n filled) (skipn defaultBufSize (rd b)),
             (firstn n filled, None))
      end
  | _ :: _ => (mkReader (skipn n (buf b)) (rd b), (firstn n (buf b), None))
  end.

(** The loop of [Discard]: each turn skips what is buffered, refilling
    an empty buffer first, until [remain] bytes are gone or the source
    has failed.  Every turn that goes on has skipped a byte, so [remain]
    turns are enough. *)
Fixpoint Discard_loop (fuel : nat) (b : Reader) (remain : nat)
  : Reader * option error :=
  match fuel with
  | O => (b, Some ErrNoProgress)
  | S fuel' =>
      let '(b1, err) := if (Buffered b =? 0)%nat then fill b else (b, None) in
      let skip := Nat.min (Buffered b1) remain in
      let b2 := mkReader (skipn skip (buf b1)) (rd b1) in
      if (remain - skip =? 0)%nat then (b2, None)
      else match err with
           | Some e => (b2, Some e)
           | None => Discard_loop fuel' b2 (remain - skip)
           end
  end.

Definition Discard (b : Reader) (n : nat) : Reader * option error :=
  if (n =? 0)%nat then (b, None) else Discard_loop n b n.

End bufio.

(** The dynamic type behind [stream.r] while the preamble is read: the
    [*bufio.Reader] that [New] and [Parse] wrap around the caller's
    reader, or the caller's [io.ReadSeeker] itself in [NewSeek]. *)
Inductive ioReader :=
| BufferedSource (b : bufio.Reader)
| RawSource (src : list byte).

(** The bytes of the stream that [stream.r] has yet to deliver. *)
Definition unread (rdr : ioReader) : list byte :=
  match rdr with
  | BufferedSource b => bufio.buf b ++ bufio.rd b
  | RawSource src => src
  end.

(** One [Read] into a slice of [n > 0] bytes. *)
Definition readOnce (rdr : ioReader) (n : nat)
  : ioReader * (list byte * option error) :=
  match rdr with
  | RawSource [] => (rdr, ([], Some EOF))
  | RawSource src => (RawSource (skipn n src), (firstn n src, None))
  | BufferedSource b =>
      let '(b', res) := bufio.Read b n in (BufferedSource b', res)
  end.

(** [io.ReadFull(r, buf)] with [len(buf) = n]: read until [n] bytes are
    in or a read fails; a failure after some bytes is an unexpected end. *)
Fixpoint ReadFull_loop (fuel : nat) (rdr : ioReader) (n : nat)
         (got : list byte) : ioReader * (list byte * option error) :=
  match fuel with
  | O => (rdr, (got, Some ErrNoProgress))
  | S fuel' =>
      let '(rdr', (bs, err)) := readOnce rdr (n - length got) in
      let got' := got ++ bs in
      if (n <=? length got')%nat then (rdr', (got', None))
      else match err with
           | Some e =>
               (rdr', (got', Some (if (0 <? length got')%nat && error_eqb_EOF e
                                   then ErrUnexpectedEOF else e)))
           | None => ReadFull_loop fuel' rdr' n got'
           end
  end.

Definition ReadFull (rdr : ioReader) (n : nat)
  : ioReader * (list byte * option error) :=
  ReadFull_loop n rdr n [].

(** ** Stream.skipID3v2 (flac.go 192-210) *)

(** Line 206: the size of the ID3v2 tag from the four bytes of
    [sizeBuf]. *)
Definition decodeSize (b0 b1 b2 b3 : byte) : Z :=
  Z.lor (Z.lor (Z.lor (Z.shiftl (byteZ b0) 21) (Z.shiftl (byteZ b1) 14))
               (Z.shiftl (byteZ b2) 7))
        (byteZ b3).

(** The synchsafe value as the design document words it: the low seven
    bits of each byte, most significant byte first. *)
Definition synchsafeValue (b0 b1 b2 b3 : byte) : Z :=
  (byteZ b0 mod 128) * 2 ^ 21 + (byteZ b1 mod 128) * 2 ^ 14
  + (byteZ b2 mod 128) * 2 ^ 7 + byteZ b3 mod 128.

(** [sizeBuf] after a read of [bs] into it: bytes not read stay zero. *)
Definition sizeOf (bs : list byte) : Z :=
  decodeSize (nth 0 bs x00) (nth 1 bs x00) (nth 2 bs x00) (nth 3 bs x00).

(** [bufio.NewReader(stream.r)]: a reader that is already a buffered
    reader of the default size is returned as it is; any other reader
    gets a new, empty buffer. *)
Definition wrap (rdr : ioReader) : bufio.Reader :=
  match rdr with
  | BufferedSource b => b
  | RawSource src => bufio.NewReader src
  end.

(** What [stream.r] is left as once the local reader [b] goes out of
    scope: the same buffered reader, or the source under the temporary
    buffer, whose read-ahead is lost. *)
Definition unwrap (rdr : ioReader) (b : bufio.Reader) : ioReader :=
  match rdr with
  | BufferedSource _ => BufferedSource b
  | RawSource _ => RawSource (bufio.rd b)
  end.

Definition skipID3v2 (rdr : ioReader) : ioReader * option error :=
  let b := wrap rdr in
  match bufio.Discard b 2 with
  | (b1, Some err) => (unwrap rdr b1, Some err)
  | (b1, None) =>
      match bufio.Read b1 4 with
      | (b2, (_, Some err)) => (unwrap rdr b2, Some err)
      | (b2, (sizeBuf, None)) =>
          let size := sizeOf sizeBuf in
          let '(b3, err) := bufio.Discard b2 (Z.to_nat size) in
          (unwrap rdr b3, err)
      end
  end.

(** ** Stream.parseStreamInfo (flac.go 154-189) *)

(** Lines 156-172: the four bytes that are compared with the signature,
    after the ID3v2 tag, if there is one, has been skipped. *)
Definition readSignature (rdr : ioReader) : ioReader * (list byte + error) :=
  match ReadFull rdr 4 with
  | (rdr1, (_, Some err)) => (rdr1, inr err)
  | (rdr1, (buf, None)) =>
      if bytes.Equal (firstn 3 buf) id3Signature then
        match skipID3v2 rdr1 with
        | (rdr2, Some err) => (rdr2, inr err)
        | (rdr2, None) =>
            match ReadFull rdr2 4 with
            | (rdr3, (_, Some err)) => (rdr3, inr err)
            | (rdr3, (buf', None)) => (rdr3, inl buf')
            end
        end
      else (rdr1, inl buf)
  end.

(** A metadata block as [meta.Parse] returns it: whether it is the last
    one, and whether its body is a [*meta.StreamInfo]. *)
Record Block := mkBlock {
  IsLast : bool;
  Body : option StreamInfo.t
}.

Section Verifier.
(** [meta.Parse], the metadata decoder. *)
Variable metaParse : ioReader -> ioReader * (Block + error).

Definition parseStreamInfo (rdr : ioReader)
  : ioReader * (option StreamInfo.t * (option Block * option error)) :=
  match readSignature rdr with
  | (rdr1, inr err) => (rdr1, (None, (None, Some err)))
  | (rdr1, inl buf) =>
      if negb (bytes.Equal buf flacSignature)
      then (rdr1, (None, (None, Some (ErrInvalidSignature buf))))
      else
        match metaParse rdr1 with
        | (rdr2, inr err) => (rdr2, (None, (None, Some err)))
        | (rdr2, inl block) =>
            match Body block with
            | None => (rdr2, (None, (Some block, Some ErrFirstBlockType)))
            | Some si => (rdr2, (Some si, (Some block, None)))
            end
        end
  end.
End Verifier.

(** An ID3v2 tag of declared size 0 followed by the stream signature
    and 38 further bytes; and a tag with a byte of the size field that
    has its high bit set. *)
Definition id3Header (b0 b1 b2 b3 : byte) : list byte :=
  [x49; x44; x33; x04; x00; x00; b0; b1; b2; b3].

Definition taggedStream : list byte :=
  id3Header x00 x00 x00 x00 ++ flacSignature ++ repeat x2a 38.

(** The same tag in front of a stream of 5000 further bytes. *)
Definition taggedLongStream : list byte :=
  id3Header x00 x00 x00 x00 ++ flacSignature ++ repeat x2a 5000.

(** The number of bytes of [data] that the reader has consumed. *)
Definition consumed (data : list byte) (rdr : ioReader) : nat :=
  (length data - length (unread rdr))%nat.

(** ** The contract of io.Seeker

    A source is lawful when it has a position that a successful
    [Seek(0, io.SeekCurrent)] reports and leaves alone, and that a
    successful [Seek(offset, io.SeekStart)] sets to [offset]. *)

Class LawfulSource (R : Type) `{Source R} := {
  position : R -> Z;
  seek_current_spec : forall (rs rs' : R) (o : Z),
    rsSeek rs 0 io.SeekCurrent = (rs', inl o) ->
    o = position rs /\ position rs' = position rs;
  seek_start_spec : forall (rs rs' : R) (offset n : Z),
    rsSeek rs offset io.SeekStart = (rs', inl n) ->
    position rs' = offset
}.

(** The bytes a buffered reader has yet to deliver. *)
Definition content (b : bufio.Reader) : list byte := bufio.buf b ++ bufio.rd b.

(** ** A measure of the in-memory source *)

(** The number of frames that start at or after position [p]. *)
Fixpoint framesAhead (start : Z) (frs : list MemFile.FrameSpec) (p : Z) : nat :=
  match frs with
  | [] => 0
  | fr :: rest =>
      Nat.add (if p <=? start then 1%nat else 0%nat)
              (framesAhead (start + MemFile.nbytes fr) rest p)
  end.

Definition positiveFrames (f : MemFile.t) : Prop :=
  Forall (fun fr => 0 < MemFile.nbytes fr) (MemFile.frames f).

Definition framesLeft (f : MemFile.t) : nat :=
  framesAhead (MemFile.base f) (MemFile.frames f) (MemFile.pos f).

(** ** Raw points in sequence *)

(** Raw points follow one another when each starts at the sample where
    the one before it ends (in 64-bit unsigned arithmetic), the first at
    [sampleNum]. *)
Fixpoint chained (sampleNum : N) (points : list SeekPoint) : Prop :=
  match points with
  | [] => True
  | p :: rest =>
      SampleNum p = sampleNum /\
      chained (uint64 (Z.of_N sampleNum + Z.of_N (NSamples p))) rest
  end.

(** The table that the build gives the two-frame file, and four bytes
    that are no signature. *)
Definition builtTable2 : SeekTable := [mkPoint 0 10 4096; mkPoint 4096 30 4096].

Definition riff : list byte := [x52; x49; x46; x46].

(** * Properties of seeking *)

(** ** Machine integers *)

Lemma int64_range z : - 2 ^ 63 <= int64 z < 2 ^ 63.
Proof. unfold int64. pose proof (Z.mod_pos_bound (z + 2 ^ 63) (2 ^ 64)). lia. Qed.

Lemma int64_small z : - 2 ^ 63 <= z < 2 ^ 63 -> int64 z = z.
Proof. intros H. unfold int64. rewrite Z.mod_small; lia. Qed.


(** ** The table lookup *)

Lemma nth_error_last_app (A : Type) (pre : list A) (x : A) (rest : list A) :
  nth_error ((pre ++ [x]) ++ rest) (length pre) = Some x.
Proof.
  rewrite <- app_assoc. rewrite nth_error_app2 by lia.
  now rewrite Nat.sub_diag.
Qed.

(** Invariant of the scan: [pre] is the part of the table already
    passed, every point of it lies strictly below the target, and [last]
    and [p] both hold its final point. *)
Lemma searchFromStart_loop_spec (sample : Z) :
  forall (rest pre : list SeekPoint) (last p : SeekPoint),
    (forall x, In x pre -> sampleKey x < sample) ->
    (pre = [] \/ exists pre', pre = pre' ++ [p] /\ last = p) ->
    let r := searchFromStart_loop sample rest (length pre) last p in
    (exists k q,
        nth_error (pre ++ rest) k = Some q /\ sample <= sampleKey q /\
        (forall j x, (j < k)%nat -> nth_error (pre ++ rest) j = Some x ->
                     sampleKey x < sample) /\
        ((k = 0%nat /\ r = q) \/
         (exists k', k = S k' /\ nth_error (pre ++ rest) k' = Some r)))
    \/ ((forall x, In x (pre ++ rest) -> sampleKey x < sample) /\
        (pre ++ rest = [] \/ exists l, pre ++ rest = l ++ [r])).
Proof.
  induction rest as [|q rest IH]; intros pre last p Hpre Hlast; cbn zeta.
  - right. rewrite app_nil_r. split; [exact Hpre|].
    destruct Hlast as [->|(pre' & -> & _)]; [now left|right; now exists pre'].
  - cbn [searchFromStart_loop].
    destruct (sample <=? sampleKey q) eqn:Hcmp.
    + left. apply Z.leb_le in Hcmp. exists (length pre), q.
      split; [rewrite nth_error_app2 by lia; now rewrite Nat.sub_diag|].
      split; [exact Hcmp|]. split.
      * intros j x Hj Hx. rewrite nth_error_app1 in Hx by exact Hj.
        apply Hpre. eapply nth_error_In; eauto.
      * destruct Hlast as [->|(pre' & -> & ->)]; cbn [length Nat.eqb].
        -- now left.
        -- right. rewrite length_app, Nat.add_comm. cbn [length Nat.add Nat.eqb].
           exists (length pre'). split; [reflexivity|].
           apply nth_error_last_app.
    + apply Z.leb_gt in Hcmp.
      specialize (IH (pre ++ [q]) q q).
      rewrite length_app, Nat.add_comm in IH. cbn [length Nat.add] in IH.
      rewrite <- app_assoc in IH. cbn [app] in IH.
      apply IH.
      * intros x Hx. apply in_app_or in Hx. destruct Hx as [Hx|[<-|[]]]; auto.
      * right. now exists pre.
Qed.

Lemma sampleKey_small (p : SeekPoint) :
  Z.of_N (SampleNum p) < 2 ^ 63 -> sampleKey p = Z.of_N (SampleNum p).
Proof. intros H. unfold sampleKey. apply int64_small. lia. Qed.

Lemma last_snoc (l : list SeekPoint) (x d : SeekPoint) : last (l ++ [x]) d = x.
Proof. apply last_last. Qed.

(** What the scan does.  On a non-empty table the scan of [searchFromStart]
    stops at the first point whose sample number, read as a signed 64-bit
    value, is at or above the target.  When that point is the first
    entry it is returned; otherwise the entry just before it is
    returned, and that entry lies strictly below the target.  When no
    point is at or above the target the last entry is returned.  In a
    sorted table with some point strictly below the target, the result
    is the greatest point strictly below the target. *)
Theorem searchFromStart_scan (points : SeekTable) (sample : Z) :
  points <> [] ->
  let r := searchFromStart points sample in
  ((exists k q,
       nth_error points k = Some q /\ sample <= sampleKey q /\
       (forall j x, (j < k)%nat -> nth_error points j = Some x ->
                    sampleKey x < sample) /\
       ((k = 0%nat /\ r = q) \/
        (exists k', k = S k' /\ nth_error points k' = Some r /\
                    sampleKey r < sample)))
   \/ ((forall x, In x points -> sampleKey x < sample) /\
       r = last points zeroPoint))
  /\ (sortedBySample points ->
      (exists x, In x points /\ sampleKey x < sample) ->
      sampleKey r < sample /\
      forall x, In x points -> sampleKey x < sample ->
                sampleKey x <= sampleKey r).
Proof.
  intros Hne r.
  assert (Hscan :
    (exists k q,
       nth_error points k = Some q /\ sample <= sampleKey q /\
       (forall j x, (j < k)%nat -> nth_error points j = Some x ->
                    sampleKey x < sample) /\
       ((k = 0%nat /\ r = q) \/
        (exists k', k = S k' /\ nth_error points k' = Some r /\
                    sampleKey r < sample)))
   \/ ((forall x, In x points -> sampleKey x < sample) /\
       r = last points zeroPoint)).
  { pose proof (searchFromStart_loop_spec sample points [] zeroPoint zeroPoint)
      as H.
    cbn [app length] in H. fold (searchFromStart points sample) in H. fold r in H.
    destruct H as [(k & q & Hk & Hq & Hbelow & Hres)|(Hall & Hres)].
    - intros x [].
    - now left.
    - left. exists k, q. repeat split; auto.
      destruct Hres as [Hres|(k' & -> & Hk')]; [now left|right].
      exists k'. repeat split; auto. eapply Hbelow; [|exact Hk']. lia.
    - right. split; [exact Hall|].
      destruct Hres as [->|(l & Hl)]; [congruence|].
      rewrite Hl. now rewrite last_snoc. }
  split; [exact Hscan|].
  intros Hsorted (y & Hy & Hylt).
  assert (Hge : forall k q j x, nth_error points k = Some q ->
              sample <= sampleKey q -> nth_error points j = Some x ->
              sampleKey x < sample -> (j < k)%nat).
  { intros k q j x Hk Hq Hj Hx.
    destruct (Nat.lt_ge_cases j k) as [Hlt|Hle]; [exact Hlt|].
    pose proof (Hsorted k j q x Hle Hk Hj). lia. }
  destruct Hscan as [(k & q & Hk & Hq & Hbelow & Hres)|(Hall & Hres)].
  - destruct Hres as [(-> & _)|(k' & -> & Hk' & Hlt)].
    + apply In_nth_error in Hy. destruct Hy as (j & Hj).
      pose proof (Hge _ _ _ _ Hk Hq Hj Hylt). lia.
    + split; [exact Hlt|]. intros x Hx Hxlt.
      apply In_nth_error in Hx. destruct Hx as (j & Hj).
      pose proof (Hge _ _ _ _ Hk Hq Hj Hxlt) as Hjk.
      apply (Hsorted j k' x r); auto. lia.
  - assert (Hr : nth_error points (length points - 1) = Some r).
    { rewrite Hres. destruct (exists_last Hne) as (l & z & ->).
      rewrite last_snoc, length_app. cbn [length].
      replace (length l + 1 - 1)%nat with (length l) by lia.
      rewrite nth_error_app2 by lia. now rewrite Nat.sub_diag. }
    split.
    + apply Hall. eapply nth_error_In; eauto.
    + intros x Hx _. apply In_nth_error in Hx. destruct Hx as (j & Hj).
      apply (Hsorted j (length points - 1)%nat x r); auto.
      assert (j < length points)%nat by (apply nth_error_Some; congruence).
      lia.
Qed.

Lemma searchFromStart_scan_witness :
  table3 <> [] /\
  let r := searchFromStart table3 5000 in
  ((exists k q,
       nth_error table3 k = Some q /\ 5000 <= sampleKey q /\
       (forall j x, (j < k)%nat -> nth_error table3 j = Some x ->
                    sampleKey x < 5000) /\
       ((k = 0%nat /\ r = q) \/
        (exists k', k = S k' /\ nth_error table3 k' = Some r /\
                    sampleKey r < 5000)))
   \/ ((forall x, In x table3 -> sampleKey x < 5000) /\
       r = last table3 zeroPoint))
  /\ (sortedBySample table3 ->
      (exists x, In x table3 /\ sampleKey x < 5000) ->
      sampleKey r < 5000 /\
      forall x, In x table3 -> sampleKey x < 5000 ->
                sampleKey x <= sampleKey r).
Proof.
  split; [discriminate|].
  apply (searchFromStart_scan table3 5000). discriminate.
Defined.

(** The 5000-sample lookup of the three-frame scenario lands on 4096. *)
Example searchFromStart_5000 :
  searchFromStart table3 5000 = mkPoint 4096 1000 4096.
Proof. reflexivity. Qed.

(** C1 (the code at the failing inputs).  A lookup of exactly 4096 in
    the three-frame table returns the point of sample 0 although the
    point of sample 4096 does not exceed the target; and in a table
    that ends in a placeholder point, whose sample number is the
    largest of all, a lookup of 200 returns the placeholder itself
    rather than the point before it. *)
Lemma searchFromStart_not_floor :
  (searchFromStart table3 4096 = mkPoint 0 0 4096 /\
   In (mkPoint 4096 1000 4096) table3 /\
   Z.of_N (SampleNum (mkPoint 4096 1000 4096)) <= 4096 /\
   (SampleNum (searchFromStart table3 4096)
    < SampleNum (mkPoint 4096 1000 4096))%N)
  /\
  (nth_error tablePlaceholder 2 = Some placeholderPoint /\
   200 <= Z.of_N (SampleNum placeholderPoint) /\
   (forall j x, (j < 2)%nat -> nth_error tablePlaceholder j = Some x ->
                Z.of_N (SampleNum x) < 200) /\
   nth_error tablePlaceholder 1 = Some (mkPoint 100 400 100) /\
   searchFromStart tablePlaceholder 200 = placeholderPoint /\
   searchFromStart tablePlaceholder 200 <> mkPoint 100 400 100).
Proof.
  split.
  - repeat split; [cbn; tauto|cbn; lia].
  - repeat split; try reflexivity; try discriminate.
    intros j x Hj Hx.
    destruct j as [|[|j]]; [| |lia]; cbn in Hx; injection Hx as <-; cbn; lia.
Qed.

(** ** Seek on sessions that cannot seek *)

Section SeekProperties.
Context {R : Type} `{Source R}.

(** When the table is absent and synthesis is enabled, a source that is
    not a seeker is refused with [ErrNoSeeker] by the build. *)
Lemma Seek_not_seeker_build (fuel : nat) (info : option StreamInfo.t)
      (size start : Z) (br : R) (sampleNum whence : Z) :
  0 < size ->
  Seek fuel (mkStream info None size start (Sequential br)) sampleNum whence
  = Returns (mkStream info None size start (Sequential br),
             (0, Some ErrNoSeeker)).
Proof.
  intros Hsize. unfold Seek. cbn.
  apply Z.ltb_lt in Hsize. now rewrite Hsize.
Qed.

(** C2 (the code at the failing inputs).  On a session as [New] and
    [Parse] build it (a buffered reader, no table, table size 0) every
    [Seek] panics on the unchecked conversion of [stream.r] to
    [io.ReadSeeker]; and on a seeker with no table and table size 0,
    [Seek] from the start panics on the nil table. *)
Theorem Seek_unsupported_panics :
  (forall (fuel : nat) (info : StreamInfo.t) (br : R) (sampleNum whence : Z),
      Seek fuel (sessionOfNew info br) sampleNum whence
      = Panics TypeAssertion)
  /\
  (forall (fuel : nat) (info : option StreamInfo.t) (start : Z) (rs : R)
          (sampleNum : Z),
      Seek fuel (mkStream info None 0 start (Seekable rs)) sampleNum
           io.SeekStart
      = Panics NilDereference).
Proof. split; reflexivity. Qed.

(** ** Seek on an empty table *)

Lemma searchFromStart_nil (sample : Z) : searchFromStart [] sample = zeroPoint.
Proof. reflexivity. Qed.

(** The reposition that ends [Seek] once a point has been found. *)
Lemma Seek_found (fuel : nat) (stream : Stream R) (rs rs1 : R)
      (point : SeekPoint) (sampleNum whence : Z) :
  isNil (seekTable stream) && (0 <? seekTableSize stream) = false ->
  r stream = Seekable rs ->
  seekSwitch stream sampleNum whence rs = Returns (inl (rs1, (point, None))) ->
  Seek fuel stream sampleNum whence
  = Returns (set_r stream
               (fst (rsSeek rs1 (int64 (dataStart stream + offsetKey point))
                            io.SeekStart)),
             (sampleKey point,
              errOf (snd (rsSeek rs1
                            (int64 (dataStart stream + offsetKey point))
                            io.SeekStart)))).
Proof.
  intros Hguard Hr Hsw. unfold Seek. rewrite Hguard. cbn [bind].
  rewrite Hr, Hsw. cbn [bind].
  destruct (rsSeek rs1 _ io.SeekStart) as [rs2 [n|err]]; reflexivity.
Qed.

(** C3 (as amended).  On a seeker whose table is present and empty,
    [Seek] in each valid mode neither panics nor reports [ErrNoSeeker]
    of its own: the lookup yields the zero seek point, the source is
    repositioned to [dataStart], and the call returns sample 0 with the
    error of that reposition, if any.  In from-current mode a failed
    position query is returned instead. *)
Theorem Seek_empty_table (fuel : nat) (stream : Stream R) (rs : R)
        (sampleNum whence : Z) :
  seekTable stream = Some [] ->
  r stream = Seekable rs ->
  Info stream <> None ->
  let reposition (rs0 : R) :=
    Returns (set_r stream
               (fst (rsSeek rs0 (int64 (dataStart stream)) io.SeekStart)),
             (0, errOf (snd (rsSeek rs0 (int64 (dataStart stream))
                                    io.SeekStart)))) in
  (whence = io.SeekStart \/ whence = io.SeekEnd ->
   Seek fuel stream sampleNum whence = reposition rs)
  /\
  (whence = io.SeekCurrent ->
   Seek fuel stream sampleNum whence
   = match rsSeek rs 0 io.SeekCurrent with
     | (rs1, inr err) => Returns (set_r stream rs1, (0, Some err))
     | (rs1, inl _) => reposition rs1
     end).
Proof.
  intros Htable Hr Hinfo reposition.
  assert (Hguard : isNil (seekTable stream) && (0 <? seekTableSize stream)
                   = false) by now rewrite Htable.
  assert (Hzero : forall rs0,
            Returns (set_r stream
              (fst (rsSeek rs0 (int64 (dataStart stream + offsetKey zeroPoint))
                           io.SeekStart)),
              (sampleKey zeroPoint,
               errOf (snd (rsSeek rs0
                       (int64 (dataStart stream + offsetKey zeroPoint))
                       io.SeekStart)))) = reposition rs0).
  { intros rs0. unfold reposition.
    change (offsetKey zeroPoint) with 0. change (sampleKey zeroPoint) with 0.
    now rewrite Z.add_0_r. }
  split.
  - intros [-> | ->].
    + rewrite <- Hzero. apply Seek_found with (rs := rs); auto.
      unfold seekSwitch, Points. rewrite Htable. reflexivity.
    + rewrite <- Hzero. apply Seek_found with (rs := rs); auto.
      unfold seekSwitch, Points, InfoNSamples. rewrite Htable.
      destruct (Info stream) as [si|]; [reflexivity|congruence].
  - intros ->.
    destruct (rsSeek rs 0 io.SeekCurrent) as [rs1 [o|err]] eqn:Hq.
    + rewrite <- Hzero. apply Seek_found with (rs := rs); auto.
      unfold seekSwitch, searchFromCurrent, Points.
      cbn [Z.eqb io.SeekCurrent io.SeekStart].
      rewrite Hq, Htable. reflexivity.
    + unfold Seek. rewrite Hguard. cbn [bind]. rewrite Hr.
      unfold seekSwitch, searchFromCurrent.
      cbn [Z.eqb io.SeekCurrent io.SeekStart]. rewrite Hq. reflexivity.
Qed.

(** ** Seek from the current position, past the table *)

Lemma offsetKey_small (p : SeekPoint) :
  Z.of_N (Offset p) < 2 ^ 63 -> offsetKey p = Z.of_N (Offset p).
Proof. intros Hlt. unfold offsetKey. apply int64_small. lia. Qed.

Lemma last_nonempty (points : list SeekPoint) (p d : SeekPoint) :
  points <> [] -> last points p = last points d.
Proof.
  induction points as [|q [|q' rest] IH]; intros Hne;
    [congruence|reflexivity|].
  change (last (q' :: rest) p = last (q' :: rest) d). apply IH. discriminate.
Qed.

Lemma searchFromCurrent_loop_past (all : list SeekPoint) (offset sample : Z) :
  forall (points : list SeekPoint) (p : SeekPoint),
    (forall q, In q points -> offsetKey q < offset) ->
    searchFromCurrent_loop all points offset sample p = last points p.
Proof.
  induction points as [|q rest IH]; intros p Hpast; [reflexivity|].
  cbn [searchFromCurrent_loop].
  assert (Hq : offsetKey q < offset) by (apply Hpast; now left).
  apply Z.leb_gt in Hq. rewrite Hq.
  rewrite IH by (intros x Hx; apply Hpast; now right).
  destruct rest as [|q' rest]; [reflexivity|].
  change (last (q' :: rest) q = last (q' :: rest) p).
  apply last_nonempty. discriminate.
Qed.

(** Past the table.  In from-current mode on a non-empty table, when
    the current byte offset relative to [dataStart] is strictly greater than the
    offset of every seek point, [Seek] lands on the last point of the
    table whatever [sampleNum] is: the source is repositioned to that
    point and its sample number is returned (as the signed 64-bit value
    Go returns, which is the sample number itself below 2^63). *)
Theorem Seek_from_current_past_table (fuel : nat) (stream : Stream R)
        (rs rs1 : R) (points : SeekTable) (o sampleNum : Z) :
  seekTable stream = Some points ->
  points <> [] ->
  r stream = Seekable rs ->
  rsSeek rs 0 io.SeekCurrent = (rs1, inl o) ->
  (forall p, In p points ->
             Z.of_N (Offset p) < int64 (o - dataStart stream)) ->
  let point := last points zeroPoint in
  let target := int64 (dataStart stream + offsetKey point) in
  Seek fuel stream sampleNum io.SeekCurrent
  = Returns (set_r stream (fst (rsSeek rs1 target io.SeekStart)),
             (sampleKey point, errOf (snd (rsSeek rs1 target io.SeekStart))))
  /\ (Z.of_N (SampleNum point) < 2 ^ 63 ->
      sampleKey point = Z.of_N (SampleNum point)).
Proof.
  intros Htable Hne Hr Hq Hpast point target.
  split; [|apply sampleKey_small].
  apply Seek_found with (rs := rs); auto.
  - now rewrite Htable.
  - unfold seekSwitch, searchFromCurrent, Points.
    cbn [Z.eqb io.SeekCurrent io.SeekStart]. rewrite Hq, Htable. cbn [bind].
    rewrite searchFromCurrent_loop_past.
    + reflexivity.
    + intros q Hin. pose proof (Hpast q Hin) as Hlt.
      pose proof (int64_range (o - dataStart stream)).
      rewrite offsetKey_small; lia.
Qed.

(** ** Failure of the seek-table build *)

(** A failed build makes [Seek] return its error at once. *)
Lemma Seek_build_failure (fuel : nat) (stream stream' : Stream R)
      (err : error) (sampleNum whence : Z) :
  seekTable stream = None ->
  0 < seekTableSize stream ->
  makeSeekTable fuel stream = Returns (stream', Some err) ->
  Seek fuel stream sampleNum whence = Returns (stream', (0, Some err)).
Proof.
  intros Hnil Hsize Hbuild. unfold Seek.
  apply Z.ltb_lt in Hsize. rewrite Hnil, Hsize. cbn [isNil andb].
  rewrite Hbuild. reflexivity.
Qed.

(** C9 (as amended).  When the build of an absent table returns an
    error, [Seek] returns that error with result 0, and never installs a
    partial table: either the table is still absent, or the frame scan
    ran to the end of the stream, the complete down-sampled table was
    installed, and the error is that of the final position restore. *)
Theorem Seek_build_failure_table (fuel : nat) (stream stream' : Stream R)
        (err : error) (sampleNum whence : Z) :
  seekTable stream = None ->
  0 < seekTableSize stream ->
  makeSeekTable fuel stream = Returns (stream', Some err) ->
  Seek fuel stream sampleNum whence = Returns (stream', (0, Some err))
  /\ (seekTable stream' = None
      \/ exists (rs rs1 rs2 rs3 : R) (pos n : Z) (tmp points : list SeekPoint),
           r stream = Seekable rs /\
           rsSeek rs 0 io.SeekCurrent = (rs1, inl pos) /\
           rsSeek rs1 (dataStart stream) io.SeekStart = (rs2, inl n) /\
           scanFrames fuel (dataStart stream) rs2 0 [] = Some (rs3, inl tmp) /\
           reducePoints tmp (seekTableSize stream) = Returns points /\
           seekTable stream' = Some points /\
           snd (rsSeek rs3 pos io.SeekStart) = inr err).
Proof.
  intros Hnil Hsize Hbuild.
  split; [now apply Seek_build_failure|].
  unfold makeSeekTable in Hbuild.
  destruct (r stream) as [br|rs] eqn:Hr.
  { injection Hbuild as <- _. now left. }
  destruct (rsSeek rs 0 io.SeekCurrent) as [rs1 [pos|e1]] eqn:Hq;
    [|injection Hbuild as <- _; now left].
  destruct (rsSeek rs1 (dataStart stream) io.SeekStart) as [rs2 [n|e2]] eqn:Hs;
    [|injection Hbuild as <- _; now left].
  destruct (scanFrames fuel (dataStart stream) rs2 0 [])
    as [[rs3 [tmp|e3]]|] eqn:Hscan;
    [|injection Hbuild as <- _; now left|discriminate].
  destruct (reducePoints tmp (seekTableSize stream)) as [points| |] eqn:Hred;
    cbn [bind] in Hbuild; try discriminate.
  destruct (rsSeek rs3 pos io.SeekStart) as [rs4 [n4|e4]] eqn:Hrestore;
    [discriminate|].
  injection Hbuild as <- <-. right.
  exists rs, rs1, rs2, rs3, pos, n, tmp, points.
  repeat split; auto. now rewrite Hrestore.
Qed.

(*SEEKPROPS*)
End SeekProperties.

Lemma Seek_empty_table_witness :
  Seek 0 (sessionOfNewSeek (fileOf [] 50 10) (Some [])) 7 io.SeekStart
  = Returns (sessionOfNewSeek (fileOf [] 42 9) (Some []), (0, None)).
Proof.
  pose proof (Seek_empty_table 0
                (sessionOfNewSeek (fileOf [] 50 10) (Some []))
                (fileOf [] 50 10) 7 io.SeekStart
                eq_refl eq_refl ltac:(discriminate)) as [Hstart _].
  rewrite (Hstart (or_introl eq_refl)). reflexivity.
Defined.

(** C3 (as stated) fails.  A stream without frames gets an empty table
    from the build, and the seek that follows returns sample 0 and no
    error; so does a seek on a session whose table was empty from the
    start, in each of the three modes. *)
Lemma Seek_empty_table_succeeds :
  Seek 1 (sessionOfNewSeek (fileOf [] 42 10) None) 0 io.SeekStart
  = Returns (sessionOfNewSeek (fileOf [] 42 6) (Some []), (0, None))
  /\ Seek 0 (sessionOfNewSeek (fileOf [] 42 10) (Some [])) 0 io.SeekStart
     = Returns (sessionOfNewSeek (fileOf [] 42 9) (Some []), (0, None))
  /\ Seek 0 (sessionOfNewSeek (fileOf [] 42 10) (Some [])) 0 io.SeekCurrent
     = Returns (sessionOfNewSeek (fileOf [] 42 8) (Some []), (0, None))
  /\ Seek 0 (sessionOfNewSeek (fileOf [] 42 10) (Some [])) 0 io.SeekEnd
     = Returns (sessionOfNewSeek (fileOf [] 42 9) (Some []), (0, None)).
Proof. repeat split. Qed.

Lemma Seek_from_current_past_table_witness :
  Seek 0 (sessionOfNewSeek (fileOf frames3 3042 10) (Some table3))
       (-5000) io.SeekCurrent
  = Returns (sessionOfNewSeek (fileOf frames3 2042 8) (Some table3),
             (8192, None)).
Proof.
  assert (Hpast : forall p, In p table3 ->
            Z.of_N (Offset p)
            < int64 (3042 - dataStart (sessionOfNewSeek
                                         (fileOf frames3 3042 10)
                                         (Some table3)))).
  { intros p [<-|[<-|[<-|[]]]]; reflexivity. }
  pose proof (Seek_from_current_past_table 0
                (sessionOfNewSeek (fileOf frames3 3042 10) (Some table3))
                (fileOf frames3 3042 10) (fileOf frames3 3042 9)
                table3 3042 (-5000)
                eq_refl ltac:(discriminate) eq_refl eq_refl Hpast)
    as [Heq _].
  rewrite Heq. reflexivity.
Defined.

Lemma Seek_build_failure_table_witness :
  Seek 5 (sessionOfNewSeek (fileOf framesCorrupt 42 10) None) 0 io.SeekStart
  = Returns (sessionOfNewSeek (fileOf framesCorrupt 72 7) None,
             (0, Some MemFile.badFrame)).
Proof.
  apply (Seek_build_failure_table 5
           (sessionOfNewSeek (fileOf framesCorrupt 42 10) None)
           (sessionOfNewSeek (fileOf framesCorrupt 72 7) None)
           MemFile.badFrame 0 io.SeekStart);
    reflexivity.
Defined.

(** C9 (as stated) fails.  When every step of the build succeeds but
    the final restore of the position, the build returns the error of
    the restore and [Seek] returns it, yet the table is installed. *)
Lemma Seek_restore_failure_installs_table :
  makeSeekTable 5 (sessionOfNewSeek (fileOf frames2 42 4) None)
  = Returns (sessionOfNewSeek (fileOf frames2 72 0)
               (Some [mkPoint 0 10 4096; mkPoint 4096 30 4096]),
             Some MemFile.ioError)
  /\ exists stream',
       Seek 5 (sessionOfNewSeek (fileOf frames2 42 4) None) 0 io.SeekStart
       = Returns (stream', (0, Some MemFile.ioError))
       /\ seekTable (sessionOfNewSeek (fileOf frames2 42 4) None) = None
       /\ seekTable stream' <> None.
Proof.
  split; [reflexivity|].
  eexists. split; [reflexivity|]. split; [reflexivity|discriminate].
Qed.

(** ** The frame scan *)

Section Scan.
Context {R : Type} `{Source R}.

(** The scan only ever appends to the points it has collected. *)
Lemma scanFrames_extends (start : Z) :
  forall (fuel : nat) (rs rs' : R) (sampleNum : N) (tmp out : list SeekPoint),
    scanFrames fuel start rs sampleNum tmp = Some (rs', inl out) ->
    exists ext, out = tmp ++ ext.
Proof.
  induction fuel as [|fuel IH]; intros rs rs' sampleNum tmp out Hscan;
    [discriminate|].
  cbn [scanFrames] in Hscan.
  destruct (frameParse rs) as [rs1 [f|err]].
  - destruct (rsSeek rs1 0 io.SeekCurrent) as [rs2 [o|err]]; [|discriminate].
    apply IH in Hscan. destruct Hscan as (ext & ->).
    rewrite <- app_assoc. eauto.
  - destruct (error_eqb_EOF err); [|discriminate].
    injection Hscan as _ <-. exists []. now rewrite app_nil_r.
Qed.

(** The first point of a scan: sample 0, and as offset the position
    that the source reports once the first frame has been decoded. *)
Lemma scanFrames_first_point (fuel : nat) (start : Z) (rs rs' : R)
      (p : SeekPoint) (out : list SeekPoint) :
  scanFrames fuel start rs 0 [] = Some (rs', inl (p :: out)) ->
  exists (rs1 rs2 : R) (f : Frame) (o : Z),
    frameParse rs = (rs1, inl f) /\
    rsSeek rs1 0 io.SeekCurrent = (rs2, inl o) /\
    p = mkPoint 0 (uint64 (int64 (o - start))) (BlockSize f).
Proof.
  intros Hscan. destruct fuel as [|fuel]; [discriminate|].
  cbn [scanFrames] in Hscan.
  destruct (frameParse rs) as [rs1 [f|err]] eqn:Hparse.
  - destruct (rsSeek rs1 0 io.SeekCurrent) as [rs2 [o|err]] eqn:Htell;
      [|discriminate].
    apply scanFrames_extends in Hscan. destruct Hscan as (ext & Hext).
    cbn [app] in Hext. injection Hext as -> _.
    exists rs1, rs2, f, o. repeat split. exact Htell.
  - destruct (error_eqb_EOF err); discriminate.
Qed.

(** More fuel does not change the outcome of a scan that has finished. *)
Lemma scanFrames_fuel (start : Z) :
  forall (fuel extra : nat) (rs : R) (sampleNum : N) (tmp : list SeekPoint)
         (res : R * (list SeekPoint + error)),
    scanFrames fuel start rs sampleNum tmp = Some res ->
    scanFrames (fuel + extra) start rs sampleNum tmp = Some res.
Proof.
  induction fuel as [|fuel IH]; intros extra rs sampleNum tmp res Hscan;
    [discriminate|].
  cbn [scanFrames Nat.add] in *.
  destruct (frameParse rs) as [rs1 [f|err]]; [|exact Hscan].
  destruct (rsSeek rs1 0 io.SeekCurrent) as [rs2 [o|err]]; [|exact Hscan].
  now apply IH.
Qed.

Lemma makeSeekTable_fuel (fuel extra : nat) (stream : Stream R)
      (res : Stream R * option error) :
  makeSeekTable fuel stream = Returns res ->
  makeSeekTable (fuel + extra) stream = Returns res.
Proof.
  unfold makeSeekTable. intros Hbuild.
  destruct (r stream) as [br|rs]; [exact Hbuild|].
  destruct (rsSeek rs 0 io.SeekCurrent) as [rs1 [pos|e1]]; [|exact Hbuild].
  destruct (rsSeek rs1 (dataStart stream) io.SeekStart) as [rs2 [n|e2]];
    [|exact Hbuild].
  destruct (scanFrames fuel (dataStart stream) rs2 0 []) as [res'|] eqn:Hscan;
    [|discriminate].
  now rewrite (scanFrames_fuel _ _ extra _ _ _ _ Hscan).
Qed.

Lemma Seek_fuel (fuel extra : nat) (stream : Stream R) (sampleNum whence : Z)
      (res : Stream R * (Z * option error)) :
  Seek fuel stream sampleNum whence = Returns res ->
  Seek (fuel + extra) stream sampleNum whence = Returns res.
Proof.
  unfold Seek. intros Hseek.
  destruct (isNil (seekTable stream) && (0 <? seekTableSize stream));
    [|exact Hseek].
  destruct (makeSeekTable fuel stream) as [built| |] eqn:Hbuild;
    try discriminate.
  now rewrite (makeSeekTable_fuel _ extra _ _ Hbuild).
Qed.

End Scan.

(** ** The scan ends on a finite source *)

Section Termination.
Context {R : Type} `{Source R}.
Variable good : R -> Prop.
Variable measure : R -> nat.
Hypothesis frame_consumes :
  forall (rs rs1 rs2 : R) (f : Frame) (o : Z),
    good rs ->
    frameParse rs = (rs1, inl f) ->
    rsSeek rs1 0 io.SeekCurrent = (rs2, inl o) ->
    good rs2 /\ (measure rs2 < measure rs)%nat.

(** When every decoded frame uses up some of a finite measure of the
    source, fuel beyond that measure lets the scan finish. *)
Lemma scanFrames_returns (start : Z) :
  forall (fuel : nat) (rs : R) (sampleNum : N) (tmp : list SeekPoint),
    good rs -> (measure rs < fuel)%nat ->
    exists res, scanFrames fuel start rs sampleNum tmp = Some res.
Proof.
  induction fuel as [|fuel IH]; intros rs sampleNum tmp Hgood Hfuel; [lia|].
  cbn [scanFrames].
  destruct (frameParse rs) as [rs1 [f|err]] eqn:Hparse.
  - destruct (rsSeek rs1 0 io.SeekCurrent) as [rs2 [o|err]] eqn:Htell;
      [|eauto].
    destruct (frame_consumes _ _ _ _ _ Hgood Hparse Htell) as [Hgood2 Hlt].
    apply IH; [exact Hgood2|lia].
  - destruct (error_eqb_EOF err); eauto.
Qed.

End Termination.

Lemma keepMultiples_ends (m : Z) :
  forall (tmp : list SeekPoint) (i : Z), keepMultiples m i tmp <> OutOfFuel.
Proof.
  induction tmp as [|p rest IH]; intros i; cbn [keepMultiples];
    [discriminate|].
  destruct (m =? 0); [discriminate|].
  specialize (IH (i + 1)).
  destruct (keepMultiples m (i + 1) rest); cbn [bind]; congruence.
Qed.

Lemma reducePoints_ends (tmp : list SeekPoint) (size : Z) :
  reducePoints tmp size <> OutOfFuel.
Proof.
  unfold reducePoints.
  destruct (size <? Z.of_nat (length tmp)); [destruct (size =? 0)|];
    cbn [bind]; try discriminate;
    (destruct (int64 (size + 1) <? 0); [discriminate|apply keepMultiples_ends]).
Qed.

(** *** The in-memory source is finite *)

Lemma framesAhead_le_length (frs : list MemFile.FrameSpec) :
  forall start p, (framesAhead start frs p <= length frs)%nat.
Proof.
  induction frs as [|fr rest IH]; intros start p; cbn [framesAhead length];
    [lia|].
  specialize (IH (start + MemFile.nbytes fr) p).
  destruct (p <=? start); lia.
Qed.

Lemma framesAhead_mono (frs : list MemFile.FrameSpec) :
  forall start p p', p <= p' ->
    (framesAhead start frs p' <= framesAhead start frs p)%nat.
Proof.
  induction frs as [|fr rest IH]; intros start p p' Hle; cbn [framesAhead];
    [lia|].
  specialize (IH (start + MemFile.nbytes fr) p p' Hle).
  destruct (p <=? start) eqn:H1, (p' <=? start) eqn:H2; lia.
Qed.

Lemma parseAt_consumes (frs : list MemFile.FrameSpec) :
  Forall (fun fr => 0 < MemFile.nbytes fr) frs ->
  forall (start p p' : Z) (f : Frame),
    MemFile.parseAt start frs p = (p', inl f) ->
    p < p' /\ (framesAhead start frs p' < framesAhead start frs p)%nat.
Proof.
  induction 1 as [|fr rest Hpos Hrest IH]; intros start p p' f Hparse;
    cbn [MemFile.parseAt framesAhead] in *; [discriminate|].
  destruct (p =? start) eqn:Heq.
  - apply Z.eqb_eq in Heq. subst p.
    destruct (MemFile.decodes fr); [|discriminate].
    injection Hparse as <- _. split; [lia|].
    rewrite Z.leb_refl.
    assert (Hgt : (start + MemFile.nbytes fr <=? start) = false)
      by (apply Z.leb_gt; lia).
    rewrite Hgt.
    pose proof (framesAhead_mono rest (start + MemFile.nbytes fr) start
                  (start + MemFile.nbytes fr) ltac:(lia)).
    lia.
  - apply Z.eqb_neq in Heq.
    destruct (p <? start + MemFile.nbytes fr) eqn:Hin; [discriminate|].
    apply Z.ltb_ge in Hin.
    destruct (IH _ _ _ _ Hparse) as [Hlt Hahead]. split; [exact Hlt|].
    assert (H1 : (p <=? start) = false) by (apply Z.leb_gt; lia).
    assert (H2 : (p' <=? start) = false) by (apply Z.leb_gt; lia).
    rewrite H1, H2. lia.
Qed.

Lemma MemFile_frame_consumes (rs rs1 rs2 : MemFile.t) (f : Frame) (o : Z) :
  positiveFrames rs ->
  frameParse rs = (rs1, inl f) ->
  rsSeek rs1 0 io.SeekCurrent = (rs2, inl o) ->
  positiveFrames rs2 /\ (framesLeft rs2 < framesLeft rs)%nat.
Proof.
  intros Hpos Hparse Htell.
  cbn [frameParse rsSeek MemFile_Source] in *.
  unfold MemFile.parse in Hparse.
  destruct (MemFile.parseAt (MemFile.base rs) (MemFile.frames rs)
                            (MemFile.pos rs)) as [p res] eqn:Hat.
  injection Hparse as <- ->.
  unfold MemFile.seek in Htell. cbn [MemFile.seeksLeft] in Htell.
  destruct (MemFile.seeksLeft rs); [discriminate|].
  change (io.SeekCurrent =? io.SeekStart) with false in Htell.
  change (io.SeekCurrent =? io.SeekCurrent) with true in Htell.
  cbv iota in Htell. cbn [MemFile.pos MemFile.base MemFile.frames] in Htell.
  destruct (p + 0 <? 0); [discriminate|].
  injection Htell as <- _.
  unfold positiveFrames, framesLeft. cbn [MemFile.pos MemFile.base MemFile.frames].
  split; [exact Hpos|].
  rewrite Z.add_0_r. eapply parseAt_consumes; eauto.
Qed.

Lemma MemFile_seek_frames (f f' : MemFile.t) (offset whence : Z)
      (res : Z + error) :
  MemFile.seek f offset whence = (f', res) ->
  MemFile.frames f' = MemFile.frames f.
Proof.
  unfold MemFile.seek. intros Hseek.
  destruct (MemFile.seeksLeft f); [now injection Hseek as <- _|].
  match type of Hseek with
  | (if ?c then _ else _) = _ => destruct c
  end; now injection Hseek as <- _.
Qed.

Section Ends.
Context {R : Type} `{Source R}.

Lemma seekSwitch_ends (stream : Stream R) (sampleNum whence : Z) (rs : R) :
  seekSwitch stream sampleNum whence rs <> OutOfFuel.
Proof.
  unfold seekSwitch, searchFromCurrent, Points, InfoNSamples.
  destruct (whence =? io.SeekStart);
    [destruct (seekTable stream); discriminate|].
  destruct (whence =? io.SeekCurrent).
  - destruct (rsSeek rs 0 io.SeekCurrent) as [rs1 [o|err]];
      [destruct (seekTable stream)|]; discriminate.
  - destruct (whence =? io.SeekEnd); [|discriminate].
    destruct (Info stream); [|discriminate].
    destruct (seekTable stream); discriminate.
Qed.

(** Only the frame scan of the build can leave a seek unfinished. *)
Lemma Seek_ends (fuel : nat) (stream : Stream R) (sampleNum whence : Z) :
  makeSeekTable fuel stream <> OutOfFuel ->
  Seek fuel stream sampleNum whence <> OutOfFuel.
Proof.
  intros Hbuild. unfold Seek.
  assert (Hfirst :
    (if isNil (seekTable stream) && (0 <? seekTableSize stream)
     then makeSeekTable fuel stream else Returns (stream, None))
    <> OutOfFuel).
  { destruct (isNil (seekTable stream) && (0 <? seekTableSize stream));
      [exact Hbuild|discriminate]. }
  destruct (if isNil (seekTable stream) && (0 <? seekTableSize stream)
            then makeSeekTable fuel stream else Returns (stream, None))
    as [[stream1 [err|]]|p|]; cbn [bind]; try discriminate; [|congruence].
  destruct (r stream1) as [br|rs]; [discriminate|].
  pose proof (seekSwitch_ends stream1 sampleNum whence rs) as Hsw.
  destruct (seekSwitch stream1 sampleNum whence rs) as [sw|p|];
    cbn [bind]; [|discriminate|congruence].
  destruct sw as [[rs1 [point [err|]]]|err]; try discriminate.
  destruct (rsSeek rs1 _ io.SeekStart) as [rs2 [n|err]]; discriminate.
Qed.

End Ends.

Lemma makeSeekTable_MemFile_ends (stream : Stream MemFile.t)
      (file : MemFile.t) :
  r stream = Seekable file ->
  positiveFrames file ->
  makeSeekTable (S (length (MemFile.frames file))) stream <> OutOfFuel.
Proof.
  intros Hr Hpos. unfold makeSeekTable. rewrite Hr.
  destruct (rsSeek file 0 io.SeekCurrent) as [rs1 [pos|e1]] eqn:H1;
    [|discriminate].
  destruct (rsSeek rs1 (dataStart stream) io.SeekStart) as [rs2 [n|e2]] eqn:H2;
    [|discriminate].
  pose proof (MemFile_seek_frames _ _ _ _ _ H1) as Hf1.
  pose proof (MemFile_seek_frames _ _ _ _ _ H2) as Hf2.
  destruct (scanFrames_returns positiveFrames framesLeft
              MemFile_frame_consumes (dataStart stream)
              (S (length (MemFile.frames file))) rs2 0 [])
    as ([rs3 [tmp|e3]] & ->).
  - unfold positiveFrames in *. now rewrite Hf2, Hf1.
  - unfold framesLeft. rewrite Hf2, Hf1.
    pose proof (framesAhead_le_length (MemFile.frames file)
                  (MemFile.base rs2) (MemFile.pos rs2)). lia.
  - pose proof (reducePoints_ends tmp (seekTableSize stream)) as Hred.
    destruct (reducePoints tmp (seekTableSize stream)) as [points|p|];
      cbn [bind]; [|discriminate|congruence].
    destruct (rsSeek rs3 pos io.SeekStart) as [rs4 [n4|e4]]; discriminate.
  - discriminate.
Qed.

(** On a file whose frames all have a positive length, a seek with one
    unit of fuel more than the file has frames returns or panics: it is
    never cut short. *)
Theorem Seek_MemFile_ends (stream : Stream MemFile.t) (file : MemFile.t)
        (sampleNum whence : Z) :
  r stream = Seekable file ->
  positiveFrames file ->
  Seek (S (length (MemFile.frames file))) stream sampleNum whence <> OutOfFuel.
Proof.
  intros Hr Hpos. apply Seek_ends. now apply makeSeekTable_MemFile_ends.
Qed.

(** ** Down-sampling *)

Lemma rem_zero_iff (m i d q : Z) :
  0 < m -> 0 <= i -> 0 <= d < m -> i + d = m * q ->
  (Z.rem i m =? 0) = (d =? 0).
Proof.
  intros Hm Hi Hd Hq.
  rewrite Z.rem_mod_nonneg by lia.
  destruct (d =? 0) eqn:Hd0.
  - apply Z.eqb_eq in Hd0. apply Z.eqb_eq.
    replace i with (q * m) by lia. apply Z.mod_mul. lia.
  - apply Z.eqb_neq in Hd0. apply Z.eqb_neq. intros Hmod.
    apply Z.mod_divide in Hmod; [|lia]. destruct Hmod as [c Hc].
    assert (Hdm : d = m * (q - c)) by lia.
    assert (Hcases : q - c <= 0 \/ 1 <= q - c) by lia.
    destruct Hcases; nia.
Qed.




(** ** The build restores the position when it succeeds *)

#[export] Instance MemFile_Lawful : LawfulSource MemFile.t.
Proof.
  refine {| position := MemFile.pos |}.
  - intros rs rs' o Hseek. cbn [rsSeek MemFile_Source] in Hseek.
    unfold MemFile.seek in Hseek.
    destruct (MemFile.seeksLeft rs); [discriminate|].
    change (io.SeekCurrent =? io.SeekStart) with false in Hseek.
    change (io.SeekCurrent =? io.SeekCurrent) with true in Hseek.
    cbv iota in Hseek.
    destruct (MemFile.pos rs + 0 <? 0); [discriminate|].
    injection Hseek as <- <-. cbn. lia.
  - intros rs rs' offset n Hseek. cbn [rsSeek MemFile_Source] in Hseek.
    unfold MemFile.seek in Hseek.
    destruct (MemFile.seeksLeft rs); [discriminate|].
    change (io.SeekStart =? io.SeekStart) with true in Hseek.
    cbv iota in Hseek.
    destruct (offset <? 0); [discriminate|].
    injection Hseek as <- _. reflexivity.
Defined.

Section RestorePosition.
Context {R : Type} `{LawfulSource R}.

(** A build that returns no error has installed a table and has put a
    lawful source back where it stood. *)
Lemma makeSeekTable_success_restores (fuel : nat) (stream stream' : Stream R)
      (rs : R) :
  r stream = Seekable rs ->
  makeSeekTable fuel stream = Returns (stream', None) ->
  exists (rs' : R) (points : SeekTable),
    r stream' = Seekable rs' /\ position rs' = position rs /\
    seekTable stream' = Some points.
Proof.
  intros Hr Hbuild. unfold makeSeekTable in Hbuild. rewrite Hr in Hbuild.
  destruct (rsSeek rs 0 io.SeekCurrent) as [rs1 [pos|e1]] eqn:Hq;
    [|discriminate].
  destruct (rsSeek rs1 (dataStart stream) io.SeekStart) as [rs2 [n|e2]];
    [|discriminate].
  destruct (scanFrames fuel (dataStart stream) rs2 0 [])
    as [[rs3 [tmp|e3]]|]; try discriminate.
  destruct (reducePoints tmp (seekTableSize stream)) as [points| |];
    cbn [bind] in Hbuild; try discriminate.
  destruct (rsSeek rs3 pos io.SeekStart) as [rs4 [n4|e4]] eqn:Hrestore;
    [|discriminate].
  injection Hbuild as <-. exists rs4, points.
  apply seek_current_spec in Hq. apply seek_start_spec in Hrestore.
  split; [reflexivity|]. split; [lia|reflexivity].
Qed.

End RestorePosition.

(** ** The build on concrete streams *)

(** C8 (the code at the failing input).  The source stands at byte 52,
    after the first frame, when the build starts; the second frame does
    not decode.  The build returns the decoder's error and leaves the
    source at byte 72, where the decoder stopped; so does the [Seek]
    that called it. *)
Theorem makeSeekTable_failure_moves_source :
  positionOf (sessionOfNewSeek (fileOf framesCorrupt 52 10) None) = 52
  /\ makeSeekTable 5 (sessionOfNewSeek (fileOf framesCorrupt 52 10) None)
     = Returns (sessionOfNewSeek (fileOf framesCorrupt 72 7) None,
                Some MemFile.badFrame)
  /\ Seek 5 (sessionOfNewSeek (fileOf framesCorrupt 52 10) None) 0 io.SeekStart
     = Returns (sessionOfNewSeek (fileOf framesCorrupt 72 7) None,
                (0, Some MemFile.badFrame))
  /\ positionOf (sessionOfNewSeek (fileOf framesCorrupt 72 7) None) = 72.
Proof. repeat split. Qed.

(** C7 (the code at the failing input).  On a stream of two frames of 10
    and 20 bytes the synthesized table starts with sample 0 at offset
    10: each point pairs the first sample of a frame with the offset of
    the frame's end, so the first offset is the length of the first
    frame, not 0. *)
Theorem makeSeekTable_first_offset :
  makeSeekTable 5 (sessionOfNewSeek (fileOf frames2 42 10) None)
  = Returns (sessionOfNewSeek (fileOf frames2 42 5)
               (Some [mkPoint 0 10 4096; mkPoint 4096 30 4096]),
             None)
  /\ Seek 5 (sessionOfNewSeek (fileOf frames2 42 10) None) 0 io.SeekStart
     = Returns (sessionOfNewSeek (fileOf frames2 52 4)
                  (Some [mkPoint 0 10 4096; mkPoint 4096 30 4096]),
                (0, None)).
Proof. split; reflexivity. Qed.

(** C4 (the code at the failing input).  With the default target of
    100 points, a stream of 199 frames gets stride 199/100 = 1, so all
    199 raw points are kept, more than 101; likewise 5 raw points with
    target 3 stay 5. *)
Theorem makeSeekTable_exceeds_target :
  (exists points,
      tableOf (makeSeekTable 200
                 (sessionOfNewSeek (fileOf frames199 42 1000) None))
      = Some points
      /\ length points = 199%nat
      /\ defaultSeekTableSize + 1 < Z.of_nat (length points))
  /\ reducePoints (rawPoints 199) 100 = Returns (rawPoints 199)
  /\ reducePoints (rawPoints 5) 3 = Returns (rawPoints 5).
Proof.
  split; [|split; vm_compute; reflexivity].
  eexists. split; [vm_compute; reflexivity|].
  split; [reflexivity|vm_compute; reflexivity].
Qed.

(** * Properties of the signature verifier *)

(** ** The size field of the tag *)

Lemma testbit_above (a n m : Z) :
  0 <= a < 2 ^ n -> 0 <= n <= m -> Z.testbit a m = false.
Proof.
  intros Ha Hnm. rewrite <- (Z.mod_small a (2 ^ n)) by exact Ha.
  apply Z.mod_pow2_bits_high. exact Hnm.
Qed.

(** Bits that do not overlap add up. *)
Lemma lor_add_low (k a n : Z) :
  0 <= n -> 0 <= a < 2 ^ n -> Z.lor (k * 2 ^ n) a = k * 2 ^ n + a.
Proof.
  intros Hn Ha.
  assert (Hland : Z.land (k * 2 ^ n) a = 0).
  { apply Z.bits_inj'. intros m Hm. rewrite Z.land_spec, Z.bits_0.
    destruct (Z.lt_ge_cases m n) as [Hlt|Hge].
    - rewrite Z.mul_pow2_bits_low by lia. reflexivity.
    - rewrite (testbit_above a n m) by lia. apply andb_false_r. }
  rewrite Z.add_nocarry_lxor by exact Hland.
  symmetry. apply Z.lxor_lor. exact Hland.
Qed.

Lemma lor_bound (a b n : Z) :
  0 <= n -> 0 <= a < 2 ^ n -> 0 <= b < 2 ^ n -> 0 <= Z.lor a b < 2 ^ n.
Proof.
  intros Hn Ha Hb.
  assert (Hmod : Z.lor a b mod 2 ^ n = Z.lor a b).
  { apply Z.bits_inj'. intros m Hm.
    destruct (Z.lt_ge_cases m n) as [Hlt|Hge].
    - apply Z.mod_pow2_bits_low. lia.
    - rewrite Z.mod_pow2_bits_high by lia.
      rewrite Z.lor_spec, (testbit_above a n m), (testbit_above b n m) by lia.
      reflexivity. }
  rewrite <- Hmod. apply Z.mod_pos_bound. apply Z.pow_pos_nonneg; lia.
Qed.

Lemma byteZ_range (b : byte) : 0 <= byteZ b < 256.
Proof.
  unfold byteZ. pose proof (Byte.to_N_bounded b). lia.
Qed.

(** C6 (as amended).  The size is the bitwise or of the four bytes of
    the field shifted by 21, 14, 7 and 0 bits, taken whole: it is
    always below 2^29, and when every byte is below 128, as a synchsafe
    field has them, it is the synchsafe value
    b0*2^21 + b1*2^14 + b2*2^7 + b3 and below 2^28. *)
Theorem decodeSize_synchsafe (b0 b1 b2 b3 : byte) :
  0 <= decodeSize b0 b1 b2 b3 < 2 ^ 29
  /\ (byteZ b0 < 128 -> byteZ b1 < 128 -> byteZ b2 < 128 -> byteZ b3 < 128 ->
      decodeSize b0 b1 b2 b3 = synchsafeValue b0 b1 b2 b3
      /\ decodeSize b0 b1 b2 b3
         = byteZ b0 * 2 ^ 21 + byteZ b1 * 2 ^ 14 + byteZ b2 * 2 ^ 7 + byteZ b3
      /\ decodeSize b0 b1 b2 b3 < 2 ^ 28).
Proof.
  pose proof (byteZ_range b0) as H0. pose proof (byteZ_range b1) as H1.
  pose proof (byteZ_range b2) as H2. pose proof (byteZ_range b3) as H3.
  unfold decodeSize. rewrite !Z.shiftl_mul_pow2 by lia.
  split.
  - repeat apply lor_bound; lia.
  - intros L0 L1 L2 L3.
    assert (Hsum :
      Z.lor (Z.lor (Z.lor (byteZ b0 * 2 ^ 21) (byteZ b1 * 2 ^ 14))
                   (byteZ b2 * 2 ^ 7)) (byteZ b3)
      = byteZ b0 * 2 ^ 21 + byteZ b1 * 2 ^ 14 + byteZ b2 * 2 ^ 7 + byteZ b3).
    { rewrite <- !Z.lor_assoc.
      rewrite (lor_add_low (byteZ b2) (byteZ b3) 7) by lia.
      rewrite (lor_add_low (byteZ b1) _ 14) by lia.
      rewrite (lor_add_low (byteZ b0) _ 21) by lia.
      lia. }
    rewrite Hsum. unfold synchsafeValue.
    rewrite !Z.mod_small by lia. repeat split; lia.
Qed.

Lemma decodeSize_synchsafe_witness :
  decodeSize x00 x00 x02 x01 = synchsafeValue x00 x00 x02 x01
  /\ decodeSize x00 x00 x02 x01 = 257.
Proof.
  destruct (decodeSize_synchsafe x00 x00 x02 x01) as [_ Hlow].
  destruct Hlow as (Hspec & Hsum & _); try reflexivity.
  split; [exact Hspec|]. rewrite Hsum. reflexivity.
Defined.

(** C6 (as stated) fails.  A high bit in a byte of the field is not
    dropped: the field 00 00 00 80 decodes to 128, not 0, and the field
    ff 00 00 00 decodes to a size that needs 29 bits. *)
Lemma decodeSize_keeps_high_bits :
  decodeSize x00 x00 x00 x80 = 128
  /\ synchsafeValue x00 x00 x00 x80 = 0
  /\ decodeSize xff x00 x00 x00 = 534773760
  /\ 2 ^ 28 <= decodeSize xff x00 x00 x00.
Proof. repeat split; vm_compute; congruence. Qed.

(** ** The buffered reader, in terms of the bytes left *)

Lemma skipn_app_le (A : Type) (n : nat) (l1 l2 : list A) :
  (n <= length l1)%nat -> skipn n (l1 ++ l2) = skipn n l1 ++ l2.
Proof.
  intros Hn. rewrite skipn_app.
  replace (n - length l1)%nat with 0%nat by lia. reflexivity.
Qed.

Lemma firstn_split (A : Type) (j k : nat) (l : list A) :
  (j <= k)%nat -> firstn j l ++ firstn (k - j) (skipn j l) = firstn k l.
Proof.
  revert k l. induction j as [|j IH]; intros k l Hjk.
  - cbn. now rewrite Nat.sub_0_r.
  - destruct k as [|k]; [lia|]. destruct l as [|x l]; cbn.
    + now rewrite firstn_nil.
    + f_equal. apply IH. lia.
Qed.

Lemma defaultBufSize_large : (4 < bufio.defaultBufSize)%nat.
Proof. unfold bufio.defaultBufSize. lia. Qed.

(** A read from a reader that still has bytes hands over a non-empty
    prefix of what is left. *)
Lemma Read_content (b : bufio.Reader) (k : nat) :
  (0 < k < bufio.defaultBufSize)%nat -> content b <> [] ->
  exists (j : nat) (b' : bufio.Reader),
    (0 < j <= k)%nat /\ (j <= length (content b))%nat /\
    bufio.Read b k = (b', (firstn j (content b), None)) /\
    content b' = skipn j (content b) /\
    ((k <= length (content b))%nat -> bufio.buf b = [] -> j = k).
Proof.
  intros Hk Hne. unfold bufio.Read, content in *.
  destruct b as [buf rd]. cbn [bufio.buf bufio.rd] in *.
  destruct buf as [|x buf].
  - cbn [app] in *. destruct rd as [|y rd]; [congruence|].
    assert (Hleb : (bufio.defaultBufSize <=? k)%nat = false)
      by (apply Nat.leb_gt; lia).
    rewrite Hleb.
    set (l := y :: rd) in *.
    exists (Nat.min k (length l)), 
      (bufio.mkReader (skipn k (firstn bufio.defaultBufSize l))
                      (skipn bufio.defaultBufSize l)).
    assert (0 < length l)%nat by (subst l; cbn; lia).
    split; [lia|]. split; [lia|]. split; [|split].
    + f_equal. f_equal. rewrite firstn_firstn.
      destruct (Nat.le_ge_cases k (length l)).
      * rewrite !Nat.min_l by lia. reflexivity.
      * rewrite (Nat.min_r k (length l)) by lia.
        rewrite !firstn_all2 by lia. reflexivity.
    + cbn [bufio.buf bufio.rd].
      destruct (Nat.le_ge_cases k (length l)).
      * rewrite Nat.min_l by lia.
        rewrite <- skipn_app_le by (rewrite length_firstn; lia).
        now rewrite firstn_skipn.
      * rewrite !skipn_all2; try lia. reflexivity.
        rewrite length_firstn; lia.
    + intros. lia.
  - exists (Nat.min k (length (x :: buf))),
      (bufio.mkReader (skipn k (x :: buf)) rd).
    set (l := x :: buf) in *.
    assert (0 < length l)%nat by (subst l; cbn; lia).
    split; [lia|]. split; [rewrite length_app; lia|]. split; [|split].
    + f_equal. f_equal. 
      destruct (Nat.le_ge_cases k (length l)).
      * rewrite Nat.min_l by lia. rewrite firstn_app.
        replace (k - length l)%nat with 0%nat by lia. cbn. now rewrite app_nil_r.
      * rewrite Nat.min_r by lia. rewrite firstn_app, Nat.sub_diag. cbn.
        rewrite app_nil_r. rewrite !firstn_all2 by lia. reflexivity.
    + cbn [bufio.buf bufio.rd].
      destruct (Nat.le_ge_cases k (length l)).
      * rewrite Nat.min_l by lia. now rewrite skipn_app_le.
      * rewrite Nat.min_r by lia. rewrite skipn_app, Nat.sub_diag. cbn.
        rewrite !skipn_all2 by lia. reflexivity.
    + intros _ Habs. subst l. discriminate.
Qed.

Lemma ReadFull_loop_content (n : nat) :
  (n < bufio.defaultBufSize)%nat ->
  forall (fuel : nat) (b : bufio.Reader) (got : list byte),
    (length got < n)%nat -> (n - length got <= fuel)%nat ->
    (n - length got <= length (content b))%nat ->
    exists b' : bufio.Reader,
      ReadFull_loop fuel (BufferedSource b) n got
      = (BufferedSource b',
         (got ++ firstn (n - length got) (content b), None))
      /\ content b' = skipn (n - length got) (content b).
Proof.
  intros Hn. induction fuel as [|fuel IH]; intros b got Hgot Hfuel Hlen; [lia|].
  cbn [ReadFull_loop readOnce].
  destruct (Read_content b (n - length got)) as (j & b' & Hj & Hjc & Hread & Hc & _).
  - lia.
  - intros Hnil. rewrite Hnil in Hlen. cbn in Hlen. lia.
  - rewrite Hread.
    assert (Hlj : length (firstn j (content b)) = j)
      by (rewrite length_firstn; lia).
    destruct (n <=? length (got ++ firstn j (content b)))%nat eqn:Hdone.
    + apply Nat.leb_le in Hdone. rewrite length_app, Hlj in Hdone.
      assert (j = n - length got)%nat by lia. subst j.
      exists b'. split; [reflexivity|exact Hc].
    + apply Nat.leb_gt in Hdone. rewrite length_app, Hlj in Hdone.
      destruct (IH b' (got ++ firstn j (content b))) as (b'' & Hloop & Hc').
      * rewrite length_app, Hlj. lia.
      * rewrite length_app, Hlj. lia.
      * rewrite Hc, length_skipn, length_app, Hlj. lia.
      * exists b''. rewrite Hloop. rewrite length_app, Hlj in *.
        split.
        -- f_equal. f_equal. rewrite <- app_assoc. f_equal.
           rewrite Hc.
           replace (n - (length got + j))%nat with (n - length got - j)%nat
             by lia.
           apply firstn_split. lia.
        -- rewrite Hc', Hc, skipn_skipn. f_equal. lia.
Qed.

Lemma ReadFull_content (b : bufio.Reader) (n : nat) :
  (0 < n < bufio.defaultBufSize)%nat -> (n <= length (content b))%nat ->
  exists b' : bufio.Reader,
    ReadFull (BufferedSource b) n
    = (BufferedSource b', (firstn n (content b), None))
    /\ content b' = skipn n (content b).
Proof.
  intros Hn Hlen. unfold ReadFull.
  destruct (ReadFull_loop_content n (proj2 Hn) n b []) as (b' & Hloop & Hc);
    cbn [length]; try lia.
  rewrite Nat.sub_0_r in *. exists b'. now split.
Qed.

Lemma Discard_loop_content :
  forall (fuel : nat) (b : bufio.Reader) (remain : nat),
    (0 < remain <= fuel)%nat -> (remain <= length (content b))%nat ->
    exists b' : bufio.Reader,
      bufio.Discard_loop fuel b remain = (b', None)
      /\ content b' = skipn remain (content b).
Proof.
  induction fuel as [|fuel IH]; intros b remain Hrem Hlen; [lia|].
  cbn [bufio.Discard_loop].
  assert (Hfill : exists b1,
    (if (bufio.Buffered b =? 0)%nat then bufio.fill b else (b, None))
    = (b1, None) /\ content b1 = content b /\ (0 < bufio.Buffered b1)%nat).
  { destruct b as [buf rd]. unfold bufio.Buffered, bufio.fill, content in *.
    cbn [bufio.buf bufio.rd] in *.
    destruct buf as [|x buf].
    - cbn [length Nat.eqb app] in *. destruct rd as [|y rd]; [cbn in Hlen; lia|].
      eexists. split; [reflexivity|]. cbn [bufio.buf bufio.rd app].
      rewrite Nat.sub_0_r. split; [apply firstn_skipn|].
      rewrite length_firstn. pose proof defaultBufSize_large. cbn [length]. lia.
    - exists (bufio.mkReader (x :: buf) rd). cbn. repeat split. lia. }
  destruct Hfill as (b1 & -> & Hc1 & Hbuf1).
  set (skip := Nat.min (bufio.Buffered b1) remain).
  assert (Hc2 : content (bufio.mkReader (skipn skip (bufio.buf b1)) (bufio.rd b1))
                = skipn skip (content b)).
  { rewrite <- Hc1. unfold content. cbn [bufio.buf bufio.rd].
    rewrite skipn_app_le; [reflexivity|]. unfold bufio.Buffered in *. lia. }
  destruct (remain - skip =? 0)%nat eqn:Hdone.
  - apply Nat.eqb_eq in Hdone. eexists. split; [reflexivity|].
    rewrite Hc2. f_equal. lia.
  - apply Nat.eqb_neq in Hdone.
    destruct (IH (bufio.mkReader (skipn skip (bufio.buf b1)) (bufio.rd b1))
                 (remain - skip)%nat) as (b' & Hloop & Hc').
    + lia.
    + rewrite Hc2, length_skipn. lia.
    + exists b'. split; [exact Hloop|].
      rewrite Hc', Hc2, skipn_skipn. f_equal. lia.
Qed.

Lemma Discard_content (b : bufio.Reader) (n : nat) :
  (n <= length (content b))%nat ->
  exists b' : bufio.Reader,
    bufio.Discard b n = (b', None) /\ content b' = skipn n (content b).
Proof.
  intros Hlen. unfold bufio.Discard. destruct (n =? 0)%nat eqn:Hz.
  - apply Nat.eqb_eq in Hz. subst n. exists b. now split.
  - apply Nat.eqb_neq in Hz. apply Discard_loop_content; lia.
Qed.

Lemma unread_buffered (b : bufio.Reader) : unread (BufferedSource b) = content b.
Proof. reflexivity. Qed.

(** In a session of [New] or [Parse], for every tag of declared size S
    with its body in place, the verifier has consumed exactly 10 + S
    bytes when it reads the signature again, and the bytes it compares
    are the four that follow the tag. *)
Theorem readSignature_buffered (v f1 f2 b0 b1 b2 b3 : byte)
        (body sig rest : list byte) :
  Z.of_nat (length body) = decodeSize b0 b1 b2 b3 ->
  length sig = 4%nat ->
  let data := [x49; x44; x33; v; f1; f2; b0; b1; b2; b3]
              ++ body ++ sig ++ rest in
  let rdr := BufferedSource (bufio.NewReader data) in
  (exists rdr2,
      skipID3v2 (fst (ReadFull rdr 4)) = (rdr2, None)
      /\ unread rdr2 = sig ++ rest
      /\ Z.of_nat (consumed data rdr2) = 10 + decodeSize b0 b1 b2 b3)
  /\ (exists rdr3,
         readSignature rdr = (rdr3, inl sig) /\ unread rdr3 = rest).
Proof.
  intros Hbody Hsig data rdr.
  set (tail := body ++ sig ++ rest) in *.
  set (b3' := bufio.mkReader (firstn 4086 tail) (skipn 4086 tail)).
  assert (Hfirst : ReadFull rdr 4
                   = (BufferedSource
                        (bufio.mkReader
                           (f1 :: f2 :: b0 :: b1 :: b2 :: b3 :: firstn 4086 tail)
                           (skipn 4086 tail)),
                      ([x49; x44; x33; v], None))).
  { subst rdr data. cbn. reflexivity. }
  assert (Hskip : exists rdr2,
             skipID3v2 (fst (ReadFull rdr 4)) = (rdr2, None)
             /\ unread rdr2 = sig ++ rest).
  { rewrite Hfirst. cbn [fst]. unfold skipID3v2. cbn [wrap unwrap].
    change (bufio.Discard _ 2)
      with (bufio.mkReader (b0 :: b1 :: b2 :: b3 :: firstn 4086 tail)
                           (skipn 4086 tail), @None error).
    cbv iota.
    change (bufio.Read _ 4)
      with (b3', ([b0; b1; b2; b3], @None error)).
    cbv iota. change (sizeOf [b0; b1; b2; b3]) with (decodeSize b0 b1 b2 b3).
    rewrite <- Hbody, Nat2Z.id.
    destruct (Discard_content b3' (length body)) as (b4 & Hd & Hc).
    - unfold content, b3'. cbn [bufio.buf bufio.rd].
      rewrite firstn_skipn. subst tail. rewrite length_app. lia.
    - rewrite Hd. exists (BufferedSource b4). split; [reflexivity|].
      rewrite unread_buffered, Hc. unfold content, b3'.
      cbn [bufio.buf bufio.rd]. rewrite firstn_skipn. subst tail.
      rewrite skipn_app_le by lia. now rewrite skipn_all. }
  destruct Hskip as (rdr2 & Hskip & Hun).
  split.
  - exists rdr2. split; [exact Hskip|]. split; [exact Hun|].
    unfold consumed. rewrite Hun. subst data tail.
    rewrite !length_app. cbn [length]. lia.
  - unfold readSignature. rewrite Hfirst in *. cbn [fst] in Hskip.
    change (bytes.Equal (firstn 3 [x49; x44; x33; v]) id3Signature) with true.
    cbv iota. rewrite Hskip.
    destruct rdr2 as [b4|src].
    + destruct (ReadFull_content b4 4) as (b5 & Hr & Hc).
      * pose proof defaultBufSize_large. lia.
      * rewrite <- unread_buffered, Hun, length_app. lia.
      * rewrite Hr. exists (BufferedSource b5).
        rewrite unread_buffered in Hun |- *. rewrite Hc, Hun.
        rewrite firstn_app, skipn_app_le by lia.
        rewrite <- Hsig, Nat.sub_diag, firstn_all, skipn_all.
        cbn. rewrite app_nil_r. now split.
    + exfalso. unfold skipID3v2 in Hskip. cbn [wrap unwrap] in Hskip.
      destruct (bufio.Discard _ 2) as [x [e|]]; [discriminate|].
      destruct (bufio.Read x 4) as [y [bs [e|]]]; [discriminate|].
      destruct (bufio.Discard y _) as [z e]. discriminate.
Qed.

(** ** The tag in front of the signature *)

(** C5 (the code at the failing input).  In a session of [NewSeek] the
    tag is skipped through a temporary buffered reader, and what that
    reader has read ahead is lost with it.  For a tag of declared size
    0 in front of a 42-byte stream, all 52 bytes are consumed before
    the signature is read again, not 10, and the verifier fails with
    [io.EOF]; in front of a longer stream 4100 bytes are consumed and
    the bytes compared are not the signature.  The buffered reader of
    [New] and [Parse] consumes 10 bytes and finds the signature. *)
Theorem skipID3v2_raw_source_reads_ahead :
  sizeOf (firstn 4 (skipn 6 taggedStream)) = 0
  /\ (exists rdr,
        skipID3v2 (fst (ReadFull (RawSource taggedStream) 4)) = (rdr, None)
        /\ consumed taggedStream rdr = 52%nat)
  /\ readSignature (RawSource taggedStream) = (RawSource [], inr EOF)
  /\ (exists rdr,
        skipID3v2 (fst (ReadFull (RawSource taggedLongStream) 4)) = (rdr, None)
        /\ consumed taggedLongStream rdr = 4100%nat)
  /\ snd (readSignature (RawSource taggedLongStream))
     = inl [x2a; x2a; x2a; x2a]
  /\ (exists rdr,
        skipID3v2 (fst (ReadFull (BufferedSource (bufio.NewReader taggedStream))
                                 4)) = (rdr, None)
        /\ consumed taggedStream rdr = 10%nat)
  /\ snd (readSignature (BufferedSource (bufio.NewReader taggedStream)))
     = inl flacSignature.
Proof.
  split; [vm_compute; reflexivity|].
  split; [eexists; split; [vm_compute; reflexivity|vm_compute; reflexivity]|].
  split; [vm_compute; reflexivity|].
  split; [eexists; split; [vm_compute; reflexivity|vm_compute; reflexivity]|].
  split; [vm_compute; reflexivity|].
  split; [eexists; split; [vm_compute; reflexivity|vm_compute; reflexivity]|].
  vm_compute; reflexivity.
Qed.

(** * Further properties of the lookups *)

Lemma sampleKey_range (p : SeekPoint) : - 2 ^ 63 <= sampleKey p < 2 ^ 63.
Proof. apply int64_range. Qed.

(** The three outcomes of the scan of [searchFromStart], read off its
    invariant: the first entry, an entry strictly below the target, or
    (when nothing reaches the target) the last entry. *)
Lemma searchFromStart_cases (points : SeekTable) (sample : Z) :
  points <> [] ->
  let r := searchFromStart points sample in
  In r points /\
  ((sample <= sampleKey r /\ nth_error points 0 = Some r)
   \/ sampleKey r < sample).
Proof.
  intros Hne r.
  pose proof (searchFromStart_loop_spec sample points [] zeroPoint zeroPoint)
    as Hspec.
  cbn [app length] in Hspec. fold (searchFromStart points sample) in Hspec.
  fold r in Hspec.
  destruct Hspec as [(k & q & Hk & Hq & Hbelow & Hres)|(Hall & Hres)].
  - intros x [].
  - now left.
  - destruct Hres as [(-> & ->)|(k' & -> & Hk')].
    + split; [eapply nth_error_In; eauto|]. left. now split.
    + split; [eapply nth_error_In; eauto|]. right.
      eapply Hbelow; [|exact Hk']. lia.
  - destruct Hres as [->|(l & Hl)]; [congruence|].
    assert (Hin : In r points) by (rewrite Hl; apply in_or_app; right; now left).
    split; [exact Hin|]. right. now apply Hall.
Qed.


(** The scan passes a prefix that lies strictly below the target. *)
Lemma searchFromStart_loop_skip (sample : Z) :
  forall (pre rest : list SeekPoint) (i : nat) (last0 p0 x : SeekPoint),
    (forall y, In y (pre ++ [x]) -> sampleKey y < sample) ->
    searchFromStart_loop sample ((pre ++ [x]) ++ rest) i last0 p0
    = searchFromStart_loop sample rest (i + S (length pre)) x x.
Proof.
  induction pre as [|y pre IH]; intros rest i last0 p0 x Hbelow.
  - cbn [app searchFromStart_loop length].
    assert (Hx : sampleKey x < sample) by (apply Hbelow; now left).
    apply Z.leb_gt in Hx. rewrite Hx. now rewrite Nat.add_1_r.
  - cbn [app searchFromStart_loop length].
    assert (Hy : sampleKey y < sample) by (apply Hbelow; now left).
    apply Z.leb_gt in Hy. rewrite Hy.
    rewrite IH by (intros z Hz; apply Hbelow; now right).
    f_equal. lia.
Qed.

(** A target that lies above everything before [q] and not above [q]
    finds the entry just before [q]. *)
Lemma searchFromStart_before (pre post : list SeekPoint) (prev q : SeekPoint)
      (sample : Z) :
  (forall y, In y (pre ++ [prev]) -> sampleKey y < sample) ->
  sample <= sampleKey q ->
  searchFromStart ((pre ++ [prev]) ++ q :: post) sample = prev.
Proof.
  intros Hbelow Hq. unfold searchFromStart.
  rewrite searchFromStart_loop_skip by exact Hbelow.
  cbn [searchFromStart_loop Nat.add Nat.eqb].
  apply Z.leb_le in Hq. now rewrite Hq.
Qed.

(** The scan of [searchFromCurrent] passes the points whose offset lies
    below the current one and hands the first other point to
    [searchFromStart]. *)
Lemma searchFromCurrent_loop_first (all : list SeekPoint) (offset sample : Z) :
  forall (pre post : list SeekPoint) (q p : SeekPoint),
    (forall y, In y pre -> offsetKey y < offset) ->
    offset <= offsetKey q ->
    searchFromCurrent_loop all (pre ++ q :: post) offset sample p
    = searchFromStart all (int64 (sampleKey q + sample)).
Proof.
  induction pre as [|y pre IH]; intros post q p Hpre Hq;
    cbn [app searchFromCurrent_loop].
  - apply Z.leb_le in Hq. now rewrite Hq.
  - assert (Hy : offsetKey y < offset) by (apply Hpre; now left).
    apply Z.leb_gt in Hy. rewrite Hy.
    apply IH; [intros z Hz; apply Hpre; now right|exact Hq].
Qed.

Lemma searchFromCurrent_loop_In (all : list SeekPoint) (offset sample : Z) :
  all <> [] ->
  forall (points : list SeekPoint) (p : SeekPoint),
    (points = [] -> In p all) ->
    (forall x, In x points -> In x all) ->
    In (searchFromCurrent_loop all points offset sample p) all.
Proof.
  intros Hne. induction points as [|q rest IH]; intros p Hp Hsub;
    cbn [searchFromCurrent_loop].
  - now apply Hp.
  - destruct (offset <=? offsetKey q).
    + now apply searchFromStart_cases.
    + apply IH.
      * intros _. apply Hsub. now left.
      * intros x Hx. apply Hsub. now right.
Qed.

(** * Further properties of Seek *)

Section SeekFurther.
Context {R : Type} `{Source R}.

(** What a build that returns leaves of the session. *)
Lemma makeSeekTable_frame (fuel : nat) (stream stream1 : Stream R)
      (err : option error) :
  makeSeekTable fuel stream = Returns (stream1, err) ->
  Info stream1 = Info stream /\
  seekTableSize stream1 = seekTableSize stream /\
  dataStart stream1 = dataStart stream /\
  (forall rs, r stream = Seekable rs -> exists rs1, r stream1 = Seekable rs1) /\
  (forall br, r stream = Sequential br -> stream1 = stream) /\
  (err = None -> exists points, seekTable stream1 = Some points).
Proof.
  unfold makeSeekTable. intros Hbuild.
  destruct (r stream) as [br|rs] eqn:Hr.
  { injection Hbuild as <- <-. repeat split; try discriminate; auto. }
  assert (Hset : forall rs' e,
            Returns (set_r stream rs', Some e) = Returns (stream1, err) ->
            Info stream1 = Info stream /\
            seekTableSize stream1 = seekTableSize stream /\
            dataStart stream1 = dataStart stream /\
            (forall rs0, Seekable rs = Seekable rs0 ->
                         exists rs1, r stream1 = Seekable rs1) /\
            (forall br, Seekable rs = Sequential br -> stream1 = stream) /\
            (err = None -> exists points, seekTable stream1 = Some points)).
  { intros rs' e Heq. injection Heq as <- <-.
    repeat split; try discriminate. intros; now exists rs'. }
  destruct (rsSeek rs 0 io.SeekCurrent) as [rs1 [pos|e1]]; [|eauto].
  destruct (rsSeek rs1 (dataStart stream) io.SeekStart) as [rs2 [n|e2]];
    [|eauto].
  destruct (scanFrames fuel (dataStart stream) rs2 0 [])
    as [[rs3 [tmp|e3]]|]; [|eauto|discriminate].
  destruct (reducePoints tmp (seekTableSize stream)) as [points| |];
    cbn [bind] in Hbuild; try discriminate.
  destruct (rsSeek rs3 pos io.SeekStart) as [rs4 [n4|e4]];
    injection Hbuild as <- <-;
    repeat split; try discriminate; intros; cbn; eauto.
Qed.

(** [Seek] on a session that has its table goes straight to the switch. *)
Lemma Seek_with_table (fuel : nat) (stream : Stream R) (rs : R)
      (points : SeekTable) (sampleNum whence : Z) :
  seekTable stream = Some points ->
  r stream = Seekable rs ->
  Seek fuel stream sampleNum whence
  = bind (seekSwitch stream sampleNum whence rs)
      (fun sw =>
         match sw with
         | inr err => Returns (stream, (0, Some err))
         | inl (rs1, (_, Some err)) => Returns (set_r stream rs1, (0, Some err))
         | inl (rs1, (point, None)) =>
             Returns (set_r stream
                        (fst (rsSeek rs1
                                (int64 (dataStart stream + offsetKey point))
                                io.SeekStart)),
                      (sampleKey point,
                       errOf (snd (rsSeek rs1
                                     (int64 (dataStart stream + offsetKey point))
                                     io.SeekStart))))
         end).
Proof.
  intros Htable Hr. unfold Seek. rewrite Htable. cbn [isNil andb bind].
  rewrite Hr. destruct (seekSwitch stream sampleNum whence rs) as [sw| |];
    cbn [bind]; try reflexivity.
  destruct sw as [[rs1 [point [err|]]]|err]; try reflexivity.
  destruct (rsSeek rs1 _ io.SeekStart) as [rs2 [n|err]]; reflexivity.
Qed.

(** The point the switch finds in a non-empty table is one of its
    entries. *)
Lemma seekSwitch_In (stream : Stream R) (rs rs1 : R) (points : SeekTable)
      (point : SeekPoint) (sampleNum whence : Z) :
  seekTable stream = Some points ->
  points <> [] ->
  seekSwitch stream sampleNum whence rs = Returns (inl (rs1, (point, None))) ->
  In point points.
Proof.
  intros Htable Hne. unfold seekSwitch, searchFromCurrent, Points, InfoNSamples.
  rewrite Htable.
  destruct (whence =? io.SeekStart).
  { cbn [bind]. intros Heq. injection Heq as _ <-.
    now apply searchFromStart_cases. }
  destruct (whence =? io.SeekCurrent).
  { destruct (rsSeek rs 0 io.SeekCurrent) as [rs' [o|err]]; cbn [bind];
      intros Heq; [|discriminate].
    injection Heq as _ <-.
    apply searchFromCurrent_loop_In; auto. congruence. }
  destruct (whence =? io.SeekEnd); [|discriminate].
  destruct (Info stream) as [si|]; cbn [bind]; [|discriminate].
  intros Heq. injection Heq as _ <-.
  unfold searchFromEnd. now apply searchFromStart_cases.
Qed.

End SeekFurther.

Section SeekInvariants.
Context {R : Type} `{Source R}.

(** The part of [Seek] after the build, lines 333-352, leaves the
    session as it is but for the state of the source. *)
Lemma Seek_after_build (stream1 s' : Stream R) (sampleNum whence : Z)
      (res : Z * option error) :
  match r stream1 with
  | Sequential _ => Panics TypeAssertion
  | Seekable rs =>
      bind (seekSwitch stream1 sampleNum whence rs)
        (fun sw =>
           match sw with
           | inr err => Returns (stream1, (0, Some err))
           | inl (rs1, (_, Some err)) =>
               Returns (set_r stream1 rs1, (0, Some err))
           | inl (rs1, (point, None)) =>
               match rsSeek rs1 (int64 (dataStart stream1 + offsetKey point))
                            io.SeekStart with
               | (rs2, inr err) =>
                   Returns (set_r stream1 rs2, (sampleKey point, Some err))
               | (rs2, inl _) =>
                   Returns (set_r stream1 rs2, (sampleKey point, None))
               end
           end)
  end = Returns (s', res) ->
  Info s' = Info stream1 /\ seekTableSize s' = seekTableSize stream1 /\
  dataStart s' = dataStart stream1 /\ seekTable s' = seekTable stream1.
Proof.
  destruct (r stream1) as [br|rs]; [discriminate|].
  destruct (seekSwitch stream1 sampleNum whence rs) as [sw| |]; cbn [bind];
    try discriminate.
  destruct sw as [[rs1 [point [err|]]]|err].
  - intros Heq. injection Heq as <- _. now repeat split.
  - destruct (rsSeek rs1 _ io.SeekStart) as [rs2 [n|err]];
      intros Heq; injection Heq as <- _; now repeat split.
  - intros Heq. injection Heq as <- _. now repeat split.
Qed.

(** Seek changes nothing of the session but the state of the source
    and, when it builds one, the table: [Info], [seekTableSize] and
    [dataStart] stay as they were, and a table that is there is never
    replaced. *)
Theorem Seek_keeps_session (fuel : nat) (stream s' : Stream R)
        (sampleNum whence : Z) (res : Z * option error) :
  Seek fuel stream sampleNum whence = Returns (s', res) ->
  Info s' = Info stream /\ seekTableSize s' = seekTableSize stream /\
  dataStart s' = dataStart stream /\
  (forall points, seekTable stream = Some points ->
                  seekTable s' = Some points).
Proof.
  unfold Seek. intros Hseek.
  destruct (isNil (seekTable stream) && (0 <? seekTableSize stream)) eqn:Hguard.
  - destruct (makeSeekTable fuel stream) as [[stream1 [err|]]| |] eqn:Hbuild;
      cbn [bind] in Hseek; try discriminate.
    + injection Hseek as <- _.
      destruct (makeSeekTable_frame _ _ _ _ Hbuild) as (Hi & Hs & Hd & _).
      repeat split; auto. intros points Hp. rewrite Hp in Hguard. discriminate.
    + apply Seek_after_build in Hseek.
      destruct (makeSeekTable_frame _ _ _ _ Hbuild) as (Hi & Hs & Hd & _).
      destruct Hseek as (Hi' & Hs' & Hd' & _).
      repeat split; try congruence.
      intros points Hp. rewrite Hp in Hguard. discriminate.
  - cbn [bind] in Hseek. apply Seek_after_build in Hseek.
    destruct Hseek as (Hi' & Hs' & Hd' & Ht'). repeat split; auto.
    intros points Hp. congruence.
Qed.

(** An unknown [whence] is answered with [ErrInvalidSeek] and sample 0.
    With the table in place nothing is touched; with the table absent
    the build runs first, and its table stays installed. *)
Theorem Seek_invalid_whence (fuel : nat) (stream : Stream R) (rs : R)
        (sampleNum whence : Z) :
  whence <> io.SeekStart -> whence <> io.SeekCurrent -> whence <> io.SeekEnd ->
  r stream = Seekable rs ->
  (forall points, seekTable stream = Some points ->
     Seek fuel stream sampleNum whence
     = Returns (stream, (0, Some ErrInvalidSeek)))
  /\
  (forall stream1, seekTable stream = None -> 0 < seekTableSize stream ->
     makeSeekTable fuel stream = Returns (stream1, None) ->
     Seek fuel stream sampleNum whence
     = Returns (stream1, (0, Some ErrInvalidSeek))
     /\ seekTable stream1 <> None).
Proof.
  intros H0 H1 H2 Hr.
  assert (Hsw : forall s rs0, seekSwitch s sampleNum whence rs0
                              = Returns (inr ErrInvalidSeek)).
  { intros s rs0. unfold seekSwitch.
    apply Z.eqb_neq in H0, H1, H2. now rewrite H0, H1, H2. }
  split.
  - intros points Htable.
    rewrite (Seek_with_table fuel stream rs points) by assumption.
    now rewrite Hsw.
  - intros stream1 Hnone Hsize Hbuild.
    destruct (makeSeekTable_frame _ _ _ _ Hbuild)
      as (_ & _ & _ & Hseekable & _ & Htable).
    destruct (Hseekable rs Hr) as (rs1 & Hr1).
    destruct (Htable eq_refl) as (points & Hpoints).
    split; [|congruence].
    unfold Seek. apply Z.ltb_lt in Hsize.
    rewrite Hnone, Hsize. cbn [isNil andb]. rewrite Hbuild. cbn [bind].
    rewrite Hr1, Hsw. reflexivity.
Qed.

End SeekInvariants.


Section SeekSafety.
Context {R : Type} `{Source R}.




End SeekSafety.

Section SeekLookups.
Context {R : Type} `{Source R}.

Lemma seekSwitch_start (stream : Stream R) (rs : R) (points : SeekTable)
      (sampleNum : Z) :
  seekTable stream = Some points ->
  seekSwitch stream sampleNum io.SeekStart rs
  = Returns (inl (rs, (searchFromStart points sampleNum, None))).
Proof. intros Htable. unfold seekSwitch, Points. now rewrite Htable. Qed.

(** Seek from the start never lands above the request, unless it lands
    on the first entry of the table: the sample returned is strictly
    below [sampleNum], or it is the sample of the first entry and
    [sampleNum] is at or below it. *)
Theorem Seek_from_start_not_above (fuel : nat) (stream s' : Stream R) (rs : R)
        (points : SeekTable) (sampleNum v : Z) (err : option error) :
  seekTable stream = Some points ->
  points <> [] ->
  r stream = Seekable rs ->
  Seek fuel stream sampleNum io.SeekStart = Returns (s', (v, err)) ->
  v < sampleNum
  \/ (sampleNum <= v /\
      exists p0, nth_error points 0 = Some p0 /\ v = sampleKey p0).
Proof.
  intros Htable Hne Hr Hseek.
  rewrite (Seek_with_table fuel stream rs points) in Hseek by assumption.
  rewrite (seekSwitch_start stream rs points) in Hseek by assumption.
  cbn [bind] in Hseek. injection Hseek as _ <- _.
  destruct (searchFromStart_cases points sampleNum Hne) as [_ [[Hge H0]|Hlt]].
  - right. split; [exact Hge|]. eauto.
  - now left.
Qed.


(** A relative seek of 0 does not stay where it is.  When the source
    stands at the offset of an entry [q] of a table whose samples and
    offsets rise up to [q], Seek from the current position with
    [sampleNum] 0 lands on the entry before [q]. *)
Theorem Seek_current_zero_steps_back (fuel : nat) (stream : Stream R)
        (rs rs1 : R) (pre post : list SeekPoint) (prev q : SeekPoint) (o : Z) :
  seekTable stream = Some ((pre ++ [prev]) ++ q :: post) ->
  r stream = Seekable rs ->
  (forall y, In y (pre ++ [prev]) ->
             offsetKey y < offsetKey q /\ sampleKey y < sampleKey q) ->
  rsSeek rs 0 io.SeekCurrent = (rs1, inl o) ->
  int64 (o - dataStart stream) = offsetKey q ->
  let target := int64 (dataStart stream + offsetKey prev) in
  Seek fuel stream 0 io.SeekCurrent
  = Returns (set_r stream (fst (rsSeek rs1 target io.SeekStart)),
             (sampleKey prev, errOf (snd (rsSeek rs1 target io.SeekStart)))).
Proof.
  intros Htable Hr Hrise Htell Hat target.
  apply Seek_found with (rs := rs); auto.
  - now rewrite Htable.
  - unfold seekSwitch, searchFromCurrent, Points.
    cbn [Z.eqb io.SeekCurrent io.SeekStart]. rewrite Htell, Htable.
    cbn [bind]. rewrite Hat.
    rewrite searchFromCurrent_loop_first;
      [|intros y Hy; now apply Hrise|lia].
    rewrite Z.add_0_r, int64_small by apply sampleKey_range.
    rewrite searchFromStart_before; [reflexivity| |lia].
    intros y Hy. now apply Hrise.
Qed.

End SeekLookups.

Section SeekLawful.
Context {R : Type} `{LawfulSource R}.

(** A seek that succeeds on a non-empty table has put the source at
    [dataStart] plus the offset of an entry of the table, and returns
    the sample of that entry. *)
Theorem Seek_lands_on_table_point (fuel : nat) (stream s' : Stream R) (rs : R)
        (points : SeekTable) (sampleNum whence v : Z) :
  seekTable stream = Some points ->
  points <> [] ->
  r stream = Seekable rs ->
  Seek fuel stream sampleNum whence = Returns (s', (v, None)) ->
  exists (p : SeekPoint) (rs' : R),
    In p points /\ v = sampleKey p /\ r s' = Seekable rs' /\
    position rs' = int64 (dataStart stream + offsetKey p).
Proof.
  intros Htable Hne Hr Hseek.
  rewrite (Seek_with_table fuel stream rs points) in Hseek by assumption.
  destruct (seekSwitch stream sampleNum whence rs) as [sw| |] eqn:Hsw;
    cbn [bind] in Hseek; try discriminate.
  destruct sw as [[rs1 [point [err|]]]|err]; try discriminate.
  destruct (rsSeek rs1 (int64 (dataStart stream + offsetKey point))
                   io.SeekStart) as [rs2 [n|err]] eqn:Hgo;
    cbn [fst snd errOf] in Hseek; [|discriminate].
  injection Hseek as <- <-.
  exists point, rs2. split; [eapply seekSwitch_In; eauto|].
  split; [reflexivity|]. split; [reflexivity|].
  eapply seek_start_spec; eauto.
Qed.

(** What a successful seek from the start has done. *)
Lemma Seek_from_start_inv (fuel : nat) (stream s1 : Stream R) (rs : R)
      (sampleNum v : Z) :
  r stream = Seekable rs ->
  Seek fuel stream sampleNum io.SeekStart = Returns (s1, (v, None)) ->
  exists (points : SeekTable) (rs1 : R),
    seekTable s1 = Some points /\ r s1 = Seekable rs1 /\
    v = sampleKey (searchFromStart points sampleNum) /\
    position rs1
    = int64 (dataStart s1 + offsetKey (searchFromStart points sampleNum)).
Proof.
  intros Hr Hseek.
  assert (Htail : forall stream1 rs0 points,
            r stream1 = Seekable rs0 -> seekTable stream1 = Some points ->
            Seek fuel stream1 sampleNum io.SeekStart = Returns (s1, (v, None)) ->
            exists rs1,
              seekTable s1 = Some points /\ r s1 = Seekable rs1 /\
              v = sampleKey (searchFromStart points sampleNum) /\
              position rs1
              = int64 (dataStart s1
                       + offsetKey (searchFromStart points sampleNum))).
  { intros stream1 rs0 points Hr0 Ht Hs.
    rewrite (Seek_with_table fuel stream1 rs0 points) in Hs by assumption.
    rewrite (seekSwitch_start stream1 rs0 points) in Hs by assumption.
    cbn [bind] in Hs.
    destruct (rsSeek rs0 _ io.SeekStart) as [rs2 [n|err]] eqn:Hgo;
      cbn [fst snd errOf] in Hs; [|discriminate].
    injection Hs as <- <-. exists rs2. repeat split; auto.
    cbn [dataStart set_r]. eapply seek_start_spec; eauto. }
  destruct (seekTable stream) as [points|] eqn:Htable.
  { destruct (Htail stream rs points Hr Htable Hseek) as (rs1 & Hres).
    now exists points, rs1. }
  revert Hseek. unfold Seek at 1. rewrite Htable. cbn [isNil andb].
  destruct (0 <? seekTableSize stream) eqn:Hsize.
  - destruct (makeSeekTable fuel stream) as [[stream1 [err|]]| |] eqn:Hbuild;
      cbn [bind]; try discriminate.
    destruct (makeSeekTable_frame _ _ _ _ Hbuild)
      as (_ & _ & _ & Hseekable & _ & Hbuilt).
    destruct (Hseekable rs Hr) as (rs0 & Hr0).
    destruct (Hbuilt eq_refl) as (points & Hpoints).
    intros Hseek.
    assert (Hagain : Seek fuel stream1 sampleNum io.SeekStart
                     = Returns (s1, (v, None))).
    { unfold Seek. rewrite Hpoints. cbn [isNil andb bind]. exact Hseek. }
    destruct (Htail stream1 rs0 points Hr0 Hpoints Hagain) as (rs1 & Hres).
    now exists points, rs1.
  - cbn [bind]. rewrite Hr. unfold seekSwitch, Points. rewrite Htable.
    cbn [Z.eqb io.SeekStart bind]. discriminate.
Qed.

(** Seeking from the start to the same sample twice gives the same
    sample and leaves the source at the same position. *)
Theorem Seek_from_start_twice (fuel : nat) (stream s1 s2 : Stream R) (rs : R)
        (sampleNum v1 v2 : Z) :
  r stream = Seekable rs ->
  Seek fuel stream sampleNum io.SeekStart = Returns (s1, (v1, None)) ->
  Seek fuel s1 sampleNum io.SeekStart = Returns (s2, (v2, None)) ->
  v2 = v1 /\
  exists rs1 rs2 : R,
    r s1 = Seekable rs1 /\ r s2 = Seekable rs2 /\
    position rs2 = position rs1 /\ seekTable s2 = seekTable s1.
Proof.
  intros Hr Hfirst Hsecond.
  destruct (Seek_from_start_inv _ _ _ _ _ _ Hr Hfirst)
    as (points & rs1 & Ht1 & Hr1 & Hv1 & Hp1).
  rewrite (Seek_with_table fuel s1 rs1 points) in Hsecond by assumption.
  rewrite (seekSwitch_start s1 rs1 points) in Hsecond by assumption.
  cbn [bind] in Hsecond.
  destruct (rsSeek rs1 _ io.SeekStart) as [rs2 [n|err]] eqn:Hgo;
    cbn [fst snd errOf] in Hsecond; [|discriminate].
  injection Hsecond as <- <-. split; [now rewrite Hv1|].
  exists rs1, rs2. repeat split; auto.
  apply seek_start_spec in Hgo. congruence.
Qed.

End SeekLawful.

(** * Further properties of the build *)

Section ScanChain.
Context {R : Type} `{Source R}.

Lemma scanFrames_chained_from (start : Z) :
  forall (fuel : nat) (rs rs' : R) (sampleNum : N) (tmp out : list SeekPoint),
    scanFrames fuel start rs sampleNum tmp = Some (rs', inl out) ->
    exists ext, out = tmp ++ ext /\ chained sampleNum ext.
Proof.
  induction fuel as [|fuel IH]; intros rs rs' sampleNum tmp out Hscan;
    [discriminate|].
  cbn [scanFrames] in Hscan.
  destruct (frameParse rs) as [rs1 [f|err]].
  - destruct (rsSeek rs1 0 io.SeekCurrent) as [rs2 [o|err]]; [|discriminate].
    apply IH in Hscan. destruct Hscan as (ext & -> & Hchain).
    eexists (_ :: ext). rewrite <- app_assoc. split; [reflexivity|].
    cbn [chained SampleNum NSamples]. now split.
  - destruct (error_eqb_EOF err); [|discriminate].
    injection Hscan as _ <-. exists []. rewrite app_nil_r. now split.
Qed.

(** The raw points of a finished scan start at sample 0 and follow one
    another: each point's sample number is the sum of the block sizes
    of the frames before it. *)
Theorem scanFrames_points_chained (fuel : nat) (start : Z) (rs rs' : R)
        (out : list SeekPoint) :
  scanFrames fuel start rs 0 [] = Some (rs', inl out) ->
  chained 0 out.
Proof.
  intros Hscan. apply scanFrames_chained_from in Hscan.
  destruct Hscan as (ext & -> & Hchain). exact Hchain.
Qed.

End ScanChain.



(** With stride [m] and [d] indices to go before the next multiple of
    [m], the [k]-th point kept is the raw point at index [d + k*m]. *)
Lemma keepMultiples_nth (m : nat) :
  (0 < m)%nat ->
  forall (tmp points : list SeekPoint) (i : Z) (d : nat) (q : Z),
    0 <= i -> (d < m)%nat -> i + Z.of_nat d = Z.of_nat m * q ->
    keepMultiples (Z.of_nat m) i tmp = Returns points ->
    forall k, nth_error points k = nth_error tmp (d + k * m).
Proof.
  intros Hm. induction tmp as [|p rest IH]; intros points i d q Hi Hd Hq Hkeep k.
  - cbn in Hkeep. injection Hkeep as <-.
    now rewrite !nth_error_nil.
  - cbn [keepMultiples] in Hkeep.
    assert (Hm0 : (Z.of_nat m =? 0) = false) by (apply Z.eqb_neq; lia).
    rewrite Hm0 in Hkeep.
    rewrite (rem_zero_iff (Z.of_nat m) i (Z.of_nat d) q) in Hkeep;
      [|lia|lia|lia|exact Hq].
    destruct (keepMultiples (Z.of_nat m) (i + 1) rest) as [points'| |] eqn:Hk;
      cbn [bind] in Hkeep; try discriminate.
    destruct d as [|d].
    + cbn [Z.of_nat Z.eqb] in Hkeep. injection Hkeep as <-.
      destruct k as [|k]; [reflexivity|].
      replace (0 + S k * m)%nat with (S ((m - 1) + k * m)) by lia.
      cbn [nth_error].
      apply (IH points' (i + 1) (m - 1)%nat (q + 1)); try lia; auto.
    + assert (Hne : (Z.of_nat (S d) =? 0) = false) by (apply Z.eqb_neq; lia).
      rewrite Hne in Hkeep. injection Hkeep as <-.
      change (S d + k * m)%nat with (S (d + k * m)). cbn [nth_error].
      apply (IH points' (i + 1) d q); try lia; auto.
Qed.

(** The down-sampling keeps the raw points at the multiples of the
    stride, in order: entry [k] of the table is raw point [k*m], where
    [m] is [len(tmp)/size] when there are more raw points than [size]
    and 1 otherwise; with at most [size] raw points the table is the
    raw points themselves. *)
Theorem reducePoints_stride (tmp points : list SeekPoint) (size : Z) :
  0 < size ->
  reducePoints tmp size = Returns points ->
  let n := Z.of_nat (length tmp) in
  let m := if size <? n then n / size else 1 in
  (forall k, nth_error points k = nth_error tmp (k * Z.to_nat m))
  /\ (n <= size -> points = tmp).
Proof.
  intros Hsize Hred n m. unfold reducePoints in Hred. fold n in Hred.
  assert (Hz : (size =? 0) = false) by (apply Z.eqb_neq; lia).
  rewrite Hz in Hred.
  assert (Hm : 0 < m).
  { subst m. destruct (size <? n) eqn:Hlt; [|lia].
    apply Z.ltb_lt in Hlt. apply Z.div_str_pos. lia. }
  assert (Hkeep : keepMultiples (Z.of_nat (Z.to_nat m)) 0 tmp = Returns points).
  { rewrite Z2Nat.id by lia. subst m.
    destruct (size <? n) eqn:Hlt; cbn [bind] in Hred.
    - apply Z.ltb_lt in Hlt. rewrite Z.quot_div_nonneg in Hred by lia.
      destruct (int64 (size + 1) <? 0); [discriminate|exact Hred].
    - destruct (int64 (size + 1) <? 0); [discriminate|exact Hred]. }
  assert (Hnth : forall k, nth_error points k = nth_error tmp (k * Z.to_nat m)).
  { intros k.
    apply (keepMultiples_nth (Z.to_nat m) ltac:(lia) tmp points 0 0%nat 0);
      try lia. exact Hkeep. }
  split; [exact Hnth|].
  intros Hle. apply nth_error_ext. intros k. rewrite Hnth.
  subst m. assert (Hlt : (size <? n) = false) by (apply Z.ltb_ge; lia).
  rewrite Hlt. f_equal. cbn. lia.
Qed.

Section BuiltTable.
Context {R : Type} `{Source R}.


End BuiltTable.

(** * Further properties of the signature verifier *)

Lemma bytes_Equal_eq (a : list byte) :
  forall b, bytes.Equal a b = true <-> a = b.
Proof.
  induction a as [|x a IH]; intros [|y b]; cbn [bytes.Equal];
    try (split; [discriminate|congruence]); [tauto|].
  rewrite andb_true_iff, IH. split.
  - intros [Hxy ->]. f_equal. now apply Byte.byte_dec_bl.
  - intros Heq. injection Heq as -> ->. split; [|reflexivity].
    now apply Byte.byte_dec_lb.
Qed.

Lemma bytes_Equal_neq (a b : list byte) :
  a <> b -> bytes.Equal a b = false.
Proof.
  intros Hne. destruct (bytes.Equal a b) eqn:Heq; [|reflexivity].
  apply bytes_Equal_eq in Heq. contradiction.
Qed.

(** The first four bytes, from either kind of reader at the start of
    its data. *)
Lemma ReadFull_start (rdr : ioReader) (sig rest : list byte) :
  length sig = 4%nat ->
  rdr = RawSource (sig ++ rest)
  \/ rdr = BufferedSource (bufio.NewReader (sig ++ rest)) ->
  exists rdr1, ReadFull rdr 4 = (rdr1, (sig, None)) /\ unread rdr1 = rest.
Proof.
  intros Hlen Hrdr.
  destruct sig as [|a [|b [|c [|d [|e sig]]]]]; try discriminate.
  destruct Hrdr as [->| ->].
  - exists (RawSource rest). split; reflexivity.
  - destruct (ReadFull_content (bufio.NewReader ([a; b; c; d] ++ rest)) 4)
      as (b' & Hread & Hc).
    + pose proof defaultBufSize_large. lia.
    + unfold content. cbn. lia.
    + exists (BufferedSource b'). rewrite Hread. split; [reflexivity|].
      rewrite unread_buffered, Hc. reflexivity.
Qed.

(** A stream without a tag: the verifier reads exactly the four bytes
    it compares and leaves the rest, in every kind of session. *)
Lemma readSignature_plain (rdr : ioReader) (sig rest : list byte) :
  length sig = 4%nat ->
  firstn 3 sig <> id3Signature ->
  rdr = RawSource (sig ++ rest)
  \/ rdr = BufferedSource (bufio.NewReader (sig ++ rest)) ->
  exists rdr1, readSignature rdr = (rdr1, inl sig) /\ unread rdr1 = rest.
Proof.
  intros Hlen Hid3 Hrdr.
  destruct (ReadFull_start rdr sig rest Hlen Hrdr) as (rdr1 & Hread & Hun).
  exists rdr1. unfold readSignature. rewrite Hread.
  rewrite (bytes_Equal_neq _ _ Hid3). now split.
Qed.

Section VerifierFurther.
Variable metaParse : ioReader -> ioReader * (Block + error).

(** Four bytes that are neither the start of a tag nor the signature
    make [parseStreamInfo] fail with the invalid-signature error that
    carries them; the metadata decoder is not called and nothing after
    the four bytes is consumed. *)
Theorem parseStreamInfo_invalid_signature (rdr : ioReader)
        (sig rest : list byte) :
  length sig = 4%nat ->
  firstn 3 sig <> id3Signature ->
  sig <> flacSignature ->
  rdr = RawSource (sig ++ rest)
  \/ rdr = BufferedSource (bufio.NewReader (sig ++ rest)) ->
  exists rdr1,
    parseStreamInfo metaParse rdr
    = (rdr1, (None, (None, Some (ErrInvalidSignature sig))))
    /\ unread rdr1 = rest.
Proof.
  intros Hlen Hid3 Hsig Hrdr.
  destruct (readSignature_plain rdr sig rest Hlen Hid3 Hrdr)
    as (rdr1 & Hread & Hun).
  exists rdr1. unfold parseStreamInfo. rewrite Hread.
  rewrite (bytes_Equal_neq _ _ Hsig). now split.
Qed.

(** After a good signature the metadata decoder is started exactly at
    the byte that follows it, in every kind of session, and its answer
    decides the result: its error is passed on, a first block that is
    not a StreamInfo block is refused, and a StreamInfo block becomes
    [stream.Info]. *)
Theorem parseStreamInfo_after_signature (rdr : ioReader) (rest : list byte) :
  rdr = RawSource (flacSignature ++ rest)
  \/ rdr = BufferedSource (bufio.NewReader (flacSignature ++ rest)) ->
  exists rdr1,
    unread rdr1 = rest /\
    parseStreamInfo metaParse rdr
    = match metaParse rdr1 with
      | (rdr2, inr err) => (rdr2, (None, (None, Some err)))
      | (rdr2, inl block) =>
          match Body block with
          | None => (rdr2, (None, (Some block, Some ErrFirstBlockType)))
          | Some si => (rdr2, (Some si, (Some block, None)))
          end
      end.
Proof.
  intros Hrdr.
  destruct (readSignature_plain rdr flacSignature rest eq_refl
              ltac:(discriminate) Hrdr) as (rdr1 & Hread & Hun).
  exists rdr1. split; [exact Hun|].
  unfold parseStreamInfo. rewrite Hread. reflexivity.
Qed.

End VerifierFurther.

(** A stream that ends before its fourth byte: an empty stream gives
    [io.EOF], one to three bytes give [io.ErrUnexpectedEOF], in every
    kind of session, and no signature is compared. *)
Theorem readSignature_short (rdr : ioReader) (data : list byte) :
  (length data < 4)%nat ->
  rdr = RawSource data \/ rdr = BufferedSource (bufio.NewReader data) ->
  snd (readSignature rdr)
  = inr (match data with [] => EOF | _ :: _ => ErrUnexpectedEOF end).
Proof.
  intros Hlen Hrdr.
  destruct data as [|a [|b [|c [|d data]]]]; cbn [length] in Hlen; try lia;
    destruct Hrdr as [->| ->]; reflexivity.
Qed.

(** Discarding more than is left ends in [io.EOF]. *)
Lemma Discard_loop_short :
  forall (fuel : nat) (b : bufio.Reader) (remain : nat),
    (remain <= fuel)%nat -> (length (content b) < remain)%nat ->
    exists b', bufio.Discard_loop fuel b remain = (b', Some EOF).
Proof.
  induction fuel as [|fuel IH]; intros b remain Hfuel Hshort; [lia|].
  cbn [bufio.Discard_loop].
  destruct b as [buf rd]. unfold bufio.Buffered, bufio.fill, content in *.
  cbn [bufio.buf bufio.rd] in *.
  assert (Hstep : forall buf1 rd1,
            buf1 <> [] -> buf1 ++ rd1 = buf ++ rd ->
            exists b',
              (let skip := Nat.min (length buf1) remain in
               let b2 := bufio.mkReader (skipn skip buf1) rd1 in
               if (remain - skip =? 0)%nat then (b2, None)
               else bufio.Discard_loop fuel b2 (remain - skip))
              = (b', Some EOF)).
  { intros buf1 rd1 Hne Hsame. cbn zeta.
    assert (Hlen : (length buf1 + length rd1 = length (buf ++ rd))%nat)
      by (rewrite <- Hsame, length_app; lia).
    assert (0 < length buf1)%nat by (destruct buf1; [congruence|cbn; lia]).
    rewrite Nat.min_l by lia.
    assert (Hnz : (remain - length buf1 =? 0)%nat = false)
      by (apply Nat.eqb_neq; lia).
    rewrite Hnz. apply IH; [lia|].
    unfold content. cbn [bufio.buf bufio.rd].
    rewrite skipn_all. cbn [app]. lia. }
  destruct buf as [|x buf].
  - cbn [length Nat.eqb app] in *. destruct rd as [|y rd].
    + cbn [length Nat.min skipn bufio.buf bufio.rd].
      assert (Hnz : (remain - 0 =? 0)%nat = false)
        by (apply Nat.eqb_neq; cbn in Hshort; lia).
      rewrite Hnz. eauto.
    + cbn [bufio.buf bufio.rd app]. rewrite Nat.sub_0_r.
      apply (Hstep (firstn bufio.defaultBufSize (y :: rd))
                   (skipn bufio.defaultBufSize (y :: rd))).
      * unfold bufio.defaultBufSize. discriminate.
      * apply firstn_skipn.
  - cbn [length Nat.eqb bufio.buf bufio.rd].
    apply (Hstep (x :: buf) rd); [discriminate|reflexivity].
Qed.

Lemma Discard_short (b : bufio.Reader) (n : nat) :
  (length (content b) < n)%nat ->
  exists b', bufio.Discard b n = (b', Some EOF).
Proof.
  intros Hshort. unfold bufio.Discard.
  assert (Hnz : (n =? 0)%nat = false) by (apply Nat.eqb_neq; lia).
  rewrite Hnz. apply Discard_loop_short; lia.
Qed.

(** A tag whose body is shorter than its size field declares: the skip
    runs into the end of the stream and the verifier fails with
    [io.EOF], in every kind of session. *)
Theorem readSignature_truncated_tag (rdr : ioReader)
        (v f1 f2 b0 b1 b2 b3 : byte) (body : list byte) :
  Z.of_nat (length body) < decodeSize b0 b1 b2 b3 ->
  let data := [x49; x44; x33; v; f1; f2; b0; b1; b2; b3] ++ body in
  rdr = RawSource data \/ rdr = BufferedSource (bufio.NewReader data) ->
  snd (readSignature rdr) = inr EOF.
Proof.
  intros Hshort data Hrdr.
  assert (Hn : (length body < Z.to_nat (decodeSize b0 b1 b2 b3))%nat) by lia.
  assert (Hdiscard : forall n,
            exists b',
              bufio.Discard (bufio.mkReader (firstn n body) (skipn n body))
                            (Z.to_nat (decodeSize b0 b1 b2 b3))
              = (b', Some EOF)).
  { intros n. apply Discard_short. unfold content.
    cbn [bufio.buf bufio.rd]. now rewrite firstn_skipn. }
  unfold readSignature.
  destruct Hrdr as [->| ->]; subst data.
  - change (ReadFull (RawSource _) 4)
      with (RawSource ([f1; f2; b0; b1; b2; b3] ++ body),
            ([x49; x44; x33; v], @None error)).
    cbv iota.
    change (bytes.Equal (firstn 3 [x49; x44; x33; v]) id3Signature) with true.
    cbv iota. unfold skipID3v2. cbn [wrap unwrap].
    change (bufio.Discard _ 2)
      with (bufio.mkReader (b0 :: b1 :: b2 :: b3 :: firstn 4090 body)
                           (skipn 4090 body), @None error).
    cbv iota.
    change (bufio.Read _ 4)
      with (bufio.mkReader (firstn 4090 body) (skipn 4090 body),
            ([b0; b1; b2; b3], @None error)).
    cbv iota. change (sizeOf [b0; b1; b2; b3]) with (decodeSize b0 b1 b2 b3).
    destruct (Hdiscard 4090%nat) as (b' & ->). reflexivity.
  - change (ReadFull (BufferedSource _) 4)
      with (BufferedSource
              (bufio.mkReader
                 (f1 :: f2 :: b0 :: b1 :: b2 :: b3 :: firstn 4086 body)
                 (skipn 4086 body)),
            ([x49; x44; x33; v], @None error)).
    cbv iota.
    change (bytes.Equal (firstn 3 [x49; x44; x33; v]) id3Signature) with true.
    cbv iota. unfold skipID3v2. cbn [wrap unwrap].
    change (bufio.Discard _ 2)
      with (bufio.mkReader (b0 :: b1 :: b2 :: b3 :: firstn 4086 body)
                           (skipn 4086 body), @None error).
    cbv iota.
    change (bufio.Read _ 4)
      with (bufio.mkReader (firstn 4086 body) (skipn 4086 body),
            ([b0; b1; b2; b3], @None error)).
    cbv iota. change (sizeOf [b0; b1; b2; b3]) with (decodeSize b0 b1 b2 b3).
    destruct (Hdiscard 4086%nat) as (b' & ->). reflexivity.
Qed.

(** * The further properties on concrete streams *)

Lemma Seek_keeps_session_witness :
  dataStart (sessionOfNewSeek (fileOf frames2 52 4) (Some builtTable2)) = 42
  /\ seekTableSize (sessionOfNewSeek (fileOf frames2 52 4) (Some builtTable2))
     = defaultSeekTableSize.
Proof.
  assert (Hrun : Seek 5 (sessionOfNewSeek (fileOf frames2 42 10) None) 0
                      io.SeekStart
                 = Returns (sessionOfNewSeek (fileOf frames2 52 4)
                              (Some builtTable2), (0, None)))
    by reflexivity.
  destruct (Seek_keeps_session 5
              (sessionOfNewSeek (fileOf frames2 42 10) None)
              (sessionOfNewSeek (fileOf frames2 52 4) (Some builtTable2))
              0 io.SeekStart (0, None) Hrun)
    as (_ & Hsize & Hstart & _).
  split; [exact Hstart|exact Hsize].
Defined.

Lemma Seek_invalid_whence_witness :
  Seek 0 (sessionOfNewSeek (fileOf frames3 42 10) (Some table3)) 0 7
  = Returns (sessionOfNewSeek (fileOf frames3 42 10) (Some table3),
             (0, Some ErrInvalidSeek)).
Proof.
  destruct (Seek_invalid_whence 0
              (sessionOfNewSeek (fileOf frames3 42 10) (Some table3))
              (fileOf frames3 42 10) 0 7
              ltac:(discriminate) ltac:(discriminate) ltac:(discriminate)
              eq_refl) as [Hpresent _].
  exact (Hpresent table3 eq_refl).
Defined.


Lemma Seek_lands_on_table_point_witness :
  exists (p : SeekPoint) (rs' : MemFile.t),
    In p table3 /\ 4096 = sampleKey p /\
    r (sessionOfNewSeek (fileOf frames3 1042 9) (Some table3)) = Seekable rs' /\
    position rs'
    = int64 (dataStart (sessionOfNewSeek (fileOf frames3 42 10) (Some table3))
             + offsetKey p).
Proof.
  apply (Seek_lands_on_table_point 0
           (sessionOfNewSeek (fileOf frames3 42 10) (Some table3))
           (sessionOfNewSeek (fileOf frames3 1042 9) (Some table3))
           (fileOf frames3 42 10) table3 5000 io.SeekStart 4096).
  - reflexivity.
  - discriminate.
  - reflexivity.
  - reflexivity.
Defined.

Lemma Seek_from_start_not_above_witness :
  4096 < 5000
  \/ (5000 <= 4096 /\
      exists p0, nth_error table3 0 = Some p0 /\ 4096 = sampleKey p0).
Proof.
  apply (Seek_from_start_not_above 0
           (sessionOfNewSeek (fileOf frames3 42 10) (Some table3))
           (sessionOfNewSeek (fileOf frames3 1042 9) (Some table3))
           (fileOf frames3 42 10) table3 5000 4096 None).
  - reflexivity.
  - discriminate.
  - reflexivity.
  - reflexivity.
Defined.

Lemma Seek_from_start_twice_witness :
  4096 = 4096 /\
  exists rs1 rs2 : MemFile.t,
    r (sessionOfNewSeek (fileOf frames3 1042 9) (Some table3)) = Seekable rs1 /\
    r (sessionOfNewSeek (fileOf frames3 1042 8) (Some table3)) = Seekable rs2 /\
    position rs2 = position rs1 /\
    seekTable (sessionOfNewSeek (fileOf frames3 1042 8) (Some table3))
    = seekTable (sessionOfNewSeek (fileOf frames3 1042 9) (Some table3)).
Proof.
  apply (Seek_from_start_twice 0
           (sessionOfNewSeek (fileOf frames3 42 10) (Some table3))
           (sessionOfNewSeek (fileOf frames3 1042 9) (Some table3))
           (sessionOfNewSeek (fileOf frames3 1042 8) (Some table3))
           (fileOf frames3 42 10) 5000 4096 4096).
  - reflexivity.
  - reflexivity.
  - reflexivity.
Defined.


Lemma Seek_current_zero_steps_back_witness :
  Seek 0 (sessionOfNewSeek (fileOf frames3 1042 10) (Some table3)) 0
       io.SeekCurrent
  = Returns (sessionOfNewSeek (fileOf frames3 42 8) (Some table3), (0, None)).
Proof.
  rewrite (Seek_current_zero_steps_back 0
             (sessionOfNewSeek (fileOf frames3 1042 10) (Some table3))
             (fileOf frames3 1042 10) (fileOf frames3 1042 9)
             [] [mkPoint 8192 2000 4096]
             (mkPoint 0 0 4096) (mkPoint 4096 1000 4096) 1042).
  - reflexivity.
  - reflexivity.
  - reflexivity.
  - intros y [<-|[]]. split; reflexivity.
  - reflexivity.
  - reflexivity.
Defined.

Lemma scanFrames_points_chained_witness : chained 0 builtTable2.
Proof.
  apply (scanFrames_points_chained 5 42 (fileOf frames2 42 10)
           (fileOf frames2 72 8) builtTable2).
  reflexivity.
Defined.

Lemma scanFrames_first_point_witness :
  exists (rs1 rs2 : MemFile.t) (f : Frame) (o : Z),
    frameParse (fileOf frames2 42 10) = (rs1, inl f) /\
    rsSeek rs1 0 io.SeekCurrent = (rs2, inl o) /\
    mkPoint 0 10 4096 = mkPoint 0 (uint64 (int64 (o - 42))) (BlockSize f).
Proof.
  apply (scanFrames_first_point 5 42 (fileOf frames2 42 10)
           (fileOf frames2 72 8) (mkPoint 0 10 4096)
           [mkPoint 4096 30 4096]).
  reflexivity.
Defined.

Lemma reducePoints_stride_witness :
  (forall k,
      nth_error [mkPoint 0 10 4096; mkPoint 8192 30 4096;
                 mkPoint 16384 50 4096] k
      = nth_error (rawPoints 5) (k * 2))
  /\ (5 <= 2 ->
      [mkPoint 0 10 4096; mkPoint 8192 30 4096; mkPoint 16384 50 4096]
      = rawPoints 5).
Proof.
  apply (reducePoints_stride (rawPoints 5)
           [mkPoint 0 10 4096; mkPoint 8192 30 4096; mkPoint 16384 50 4096]
           2).
  - reflexivity.
  - reflexivity.
Defined.



Lemma makeSeekTable_success_restores_witness :
  exists (rs' : MemFile.t) (points : SeekTable),
    r (sessionOfNewSeek (fileOf frames2 52 5) (Some builtTable2))
    = Seekable rs' /\
    position rs' = position (fileOf frames2 52 10) /\
    seekTable (sessionOfNewSeek (fileOf frames2 52 5) (Some builtTable2))
    = Some points.
Proof.
  apply (makeSeekTable_success_restores 5
           (sessionOfNewSeek (fileOf frames2 52 10) None)
           (sessionOfNewSeek (fileOf frames2 52 5) (Some builtTable2))
           (fileOf frames2 52 10)).
  - reflexivity.
  - reflexivity.
Defined.

Lemma Seek_not_seeker_build_witness :
  Seek 0 (mkStream None None 100 42 (Sequential (fileOf frames2 42 10))) 0
       io.SeekStart
  = Returns (mkStream None None 100 42 (Sequential (fileOf frames2 42 10)),
             (0, Some ErrNoSeeker)).
Proof.
  apply (Seek_not_seeker_build 0 None 100 42 (fileOf frames2 42 10) 0
           io.SeekStart).
  reflexivity.
Defined.

Lemma parseStreamInfo_invalid_signature_witness :
  exists rdr1,
    parseStreamInfo (fun rdr => (rdr, inr EOF)) (RawSource (riff ++ [x00]))
    = (rdr1, (None, (None, Some (ErrInvalidSignature riff))))
    /\ unread rdr1 = [x00].
Proof.
  apply (parseStreamInfo_invalid_signature (fun rdr => (rdr, inr EOF))
           (RawSource (riff ++ [x00])) riff [x00]).
  - reflexivity.
  - discriminate.
  - discriminate.
  - left. reflexivity.
Defined.

Lemma parseStreamInfo_after_signature_witness :
  exists rdr1,
    unread rdr1 = [x00; x01] /\
    parseStreamInfo (fun rdr => (rdr, inr EOF))
                    (BufferedSource
                       (bufio.NewReader (flacSignature ++ [x00; x01])))
    = (rdr1, (None, (None, Some EOF))).
Proof.
  destruct (parseStreamInfo_after_signature (fun rdr => (rdr, inr EOF))
              (BufferedSource (bufio.NewReader (flacSignature ++ [x00; x01])))
              [x00; x01] (or_intror eq_refl)) as (rdr1 & Hun & Hparse).
  exists rdr1. split; [exact Hun|exact Hparse].
Defined.

Lemma readSignature_short_witness :
  snd (readSignature (RawSource [x66; x4c])) = inr ErrUnexpectedEOF.
Proof.
  apply (readSignature_short (RawSource [x66; x4c]) [x66; x4c]).
  - cbn. lia.
  - left. reflexivity.
Defined.

Lemma readSignature_truncated_tag_witness :
  snd (readSignature
         (RawSource (id3Header x00 x00 x00 x03 ++ [x01])))
  = inr EOF.
Proof.
  apply (readSignature_truncated_tag
           (RawSource (id3Header x00 x00 x00 x03 ++ [x01]))
           x04 x00 x00 x00 x00 x00 x03 [x01]).
  - reflexivity.
  - left. reflexivity.
Defined.

Lemma readSignature_buffered_witness :
  exists rdr,
    skipID3v2 (fst (ReadFull
                      (BufferedSource
                         (bufio.NewReader
                            (id3Header x00 x00 x00 x03 ++ [x01; x02; x03]
                             ++ flacSignature ++ [x2a; x2a])))
                      4)) = (rdr, None)
    /\ unread rdr = flacSignature ++ [x2a; x2a].
Proof.
  destruct (readSignature_buffered x04 x00 x00 x00 x00 x00 x03
              [x01; x02; x03] flacSignature [x2a; x2a])
    as [(rdr & Hskip & Hun & _) _]; try reflexivity.
  exists rdr. split; [exact Hskip|exact Hun].
Defined.

(** * The build, once and for all *)

Section BuildOnce.
Context {R : Type} `{Source R}.

Lemma seekSwitch_found_table (stream : Stream R) (rs rs1 : R)
      (point : SeekPoint) (sampleNum whence : Z) :
  seekSwitch stream sampleNum whence rs = Returns (inl (rs1, (point, None))) ->
  seekTable stream <> None.
Proof.
  unfold seekSwitch, searchFromCurrent, Points, InfoNSamples.
  intros Hsw Hnone. rewrite Hnone in Hsw.
  destruct (whence =? io.SeekStart); [discriminate|].
  destruct (whence =? io.SeekCurrent).
  - destruct (rsSeek rs 0 io.SeekCurrent) as [rs' [o|e]]; discriminate.
  - destruct (whence =? io.SeekEnd); [|discriminate].
    destruct (Info stream); discriminate.
Qed.

(** The table is built at most once.  After a seek that has returned
    without error the session holds a table, and no later seek scans
    the frames again: with any fuel it does what it does with none. *)
Theorem Seek_builds_once (fuel : nat) (stream s1 : Stream R)
        (sampleNum whence v : Z) :
  Seek fuel stream sampleNum whence = Returns (s1, (v, None)) ->
  seekTable s1 <> None /\
  forall (fuel' : nat) (sampleNum' whence' : Z),
    Seek fuel' s1 sampleNum' whence' = Seek 0 s1 sampleNum' whence'.
Proof.
  intros Hseek.
  assert (Htable : seekTable s1 <> None).
  { unfold Seek in Hseek.
    assert (Htail : forall stream1,
              match r stream1 with
              | Sequential _ => Panics TypeAssertion
              | Seekable rs =>
                  bind (seekSwitch stream1 sampleNum whence rs)
                    (fun sw =>
                       match sw with
                       | inr err => Returns (stream1, (0, Some err))
                       | inl (rs1, (_, Some err)) =>
                           Returns (set_r stream1 rs1, (0, Some err))
                       | inl (rs1, (point, None)) =>
                           match rsSeek rs1
                                   (int64 (dataStart stream1 + offsetKey point))
                                   io.SeekStart with
                           | (rs2, inr err) =>
                               Returns (set_r stream1 rs2,
                                        (sampleKey point, Some err))
                           | (rs2, inl _) =>
                               Returns (set_r stream1 rs2,
                                        (sampleKey point, None))
                           end
                       end)
              end = Returns (s1, (v, None)) ->
              seekTable s1 <> None).
    { intros stream1 Htail.
      pose proof (Seek_after_build stream1 s1 sampleNum whence (v, None) Htail)
        as (_ & _ & _ & Hsame).
      rewrite Hsame.
      destruct (r stream1) as [br|rs]; [discriminate|].
      destruct (seekSwitch stream1 sampleNum whence rs) as [sw| |] eqn:Hsw;
        cbn [bind] in Htail; try discriminate.
      destruct sw as [[rs1 [point [err|]]]|err]; try discriminate.
      eapply seekSwitch_found_table; eauto. }
    destruct (isNil (seekTable stream) && (0 <? seekTableSize stream)).
    - destruct (makeSeekTable fuel stream) as [[stream1 [err|]]| |];
        cbn [bind] in Hseek; try discriminate.
      now apply (Htail stream1).
    - cbn [bind] in Hseek. now apply (Htail stream). }
  split; [exact Htable|].
  intros fuel' sampleNum' whence'. unfold Seek.
  destruct (seekTable s1); [reflexivity|congruence].
Qed.

(** When every step of the build succeeds but the final restore of the
    position, the build returns the restore's error with the complete
    table installed. *)
Lemma makeSeekTable_restore_failure (fuel : nat) (stream : Stream R)
      (rs rs1 rs2 rs3 rs4 : R) (pos n : Z) (tmp points : list SeekPoint)
      (err : error) :
  r stream = Seekable rs ->
  rsSeek rs 0 io.SeekCurrent = (rs1, inl pos) ->
  rsSeek rs1 (dataStart stream) io.SeekStart = (rs2, inl n) ->
  scanFrames fuel (dataStart stream) rs2 0 [] = Some (rs3, inl tmp) ->
  reducePoints tmp (seekTableSize stream) = Returns points ->
  rsSeek rs3 pos io.SeekStart = (rs4, inr err) ->
  makeSeekTable fuel stream
  = Returns (set_r (set_seekTable (set_r stream rs3) points) rs4, Some err).
Proof.
  intros Hr H1 H2 H3 H4 H5. unfold makeSeekTable.
  rewrite Hr, H1, H2, H3, H4. cbn [bind]. now rewrite H5.
Qed.

End BuildOnce.

Lemma Seek_builds_once_witness :
  seekTable (sessionOfNewSeek (fileOf frames2 52 4) (Some builtTable2)) <> None
  /\ forall (fuel' : nat) (sampleNum' whence' : Z),
       Seek fuel' (sessionOfNewSeek (fileOf frames2 52 4) (Some builtTable2))
            sampleNum' whence'
       = Seek 0 (sessionOfNewSeek (fileOf frames2 52 4) (Some builtTable2))
              sampleNum' whence'.
Proof.
  apply (Seek_builds_once 5 (sessionOfNewSeek (fileOf frames2 42 10) None)
           (sessionOfNewSeek (fileOf frames2 52 4) (Some builtTable2))
           0 io.SeekStart 0).
  reflexivity.
Defined.

(** * The lookups at their failing inputs *)

(** C10 (the code at the failing input).  The table ends in a
    placeholder point, whose sample number is 0xFFFFFFFFFFFFFFFF, and
    the source stands past the offset of every point.  Seek from the
    current position lands on that last point whatever [sampleNum] is,
    but the sample it returns is -1, the signed reading of the sample
    number, not the sample number of the point. *)
Theorem Seek_from_current_placeholder :
  (forall p, In p tablePlaceholder ->
             Z.of_N (Offset p)
             < int64 (3042 - dataStart (sessionOfNewSeek
                                          (fileOf frames3 3042 10)
                                          (Some tablePlaceholder))))
  /\ last tablePlaceholder zeroPoint = placeholderPoint
  /\ Z.of_N (SampleNum placeholderPoint) = 18446744073709551615
  /\ forall sampleNum : Z,
       Seek 0 (sessionOfNewSeek (fileOf frames3 3042 10)
                                (Some tablePlaceholder))
            sampleNum io.SeekCurrent
       = Returns (sessionOfNewSeek (fileOf frames3 42 8)
                                   (Some tablePlaceholder),
                  (-1, None)).
Proof.
  split; [intros p [<-|[<-|[<-|[]]]]; reflexivity|].
  split; [reflexivity|]. split; [reflexivity|].
  intros sampleNum. reflexivity.
Qed.

(** The same lookups through [Seek]: a seek to sample 4096 of the
    three-frame table returns sample 0 and puts the source at the first
    frame, and a seek to sample 200 of the table that ends in a
    placeholder returns -1. *)
Lemma Seek_from_start_at_exact_match :
  Seek 0 (sessionOfNewSeek (fileOf frames3 42 10) (Some table3)) 4096
       io.SeekStart
  = Returns (sessionOfNewSeek (fileOf frames3 42 9) (Some table3), (0, None))
  /\ Seek 0 (sessionOfNewSeek (fileOf frames3 42 10) (Some tablePlaceholder))
          200 io.SeekStart
     = Returns (sessionOfNewSeek (fileOf frames3 42 9) (Some tablePlaceholder),
                (-1, None)).
Proof. split; reflexivity. Qed.
